(** * LatexEditor (ui-render.js): section renderer and snapshot history

    A shallow embedding of the [LatexEditor] class of [src/ui-render.js]:
    the title pattern of [renderNode], the recursive renderer with its
    dotted numbering, [pushHistory], [undo], [redo] and [restoreHistory]
    over the snapshot log, the debounce timer that feeds the log,
    [loadFile], the collapse handler of [renderNode], [toggleRender], [save]
    and the keyboard shortcuts.

    Conventions of the model.
    - A JavaScript string is the list of its UTF-16 code units.
    - An array is a list; [this.historyIndex] is a [Z], as the code compares
      it with [0] and starts it at [-1].
    - The DOM is kept as data: the container is a forest of rendered blocks,
      and [document.querySelectorAll('.section-content')] is the preorder
      list of their content regions.
    - What the browser and MathJax do to the markup of a region is not in
      the source file: it is taken as a parameter, the class [Browser], of
      which nothing is assumed.  The [innerHTML] of a region is the string
      that reading the property gives: after an assignment it is what the
      browser makes of the assigned string, after typesetting what MathJax
      left, and after an edit by the user whatever the edit produced.
    - [loadFile] is taken with a [File] in hand and with a [parseLatex]
      that returns an array of nodes carrying [level], [title], [content]
      and [children], or throws.
    - Time is a clock in milliseconds with a queue of pending timers;
      [setTimeout] and [clearTimeout] act on the queue, and the event loop
      fires the timers that are due.
    - A call that can throw returns a [completion]: the state it left
      behind, together with the way it ended. *)

From Stdlib Require Import ZArith NArith List String Ascii Bool Lia.
From Stdlib Require Import DecimalString.
From stdpp Require Import base list.
Import ListNotations.

Local Open Scope Z_scope.
Local Set Warnings "-register-all".

(** ** JavaScript strings *)

Module JsString.

Definition codeunit : Type := N.
Definition jsstring : Type := list codeunit.

(** An ASCII literal of the source, as code units. *)
Definition lit (s : string) : jsstring :=
  map N_of_ascii (list_ascii_of_string s).

Definition unit_of (a : ascii) : codeunit := N_of_ascii a.

Fixpoint eqb (s t : jsstring) : bool :=
  match s, t with
  | [], [] => true
  | c :: s', d :: t' => N.eqb c d && eqb s' t'
  | _, _ => false
  end.

(** [s.startsWith(p)] *)
Fixpoint startsWith (p s : jsstring) : bool :=
  match p, s with
  | [], _ => true
  | c :: p', d :: s' => N.eqb c d && startsWith p' s'
  | _ :: _, [] => false
  end.

(** [s.includes(p)] *)
Fixpoint includes (p s : jsstring) : bool :=
  startsWith p s ||
  match s with
  | [] => false
  | _ :: s' => includes p s'
  end.

(** [s.endsWith(p)] *)
Definition endsWith (p s : jsstring) : bool :=
  startsWith (rev p) (rev s).

(** The template [`${n}`] of a non-negative integer: its decimal digits. *)
Definition decimal (n : N) : jsstring :=
  lit (NilZero.string_of_uint (N.to_uint n)).

End JsString.
Import JsString.

(** ** The title pattern of [renderNode]

    [node.title.replace(/.../g, '$1')] on line 140.  The pattern literal has
    no [u] flag.  Read token by token it is: a backslash followed by the
    character U+E001 (the file holds the bytes EE 80 81 there), an identity
    escape that matches that character; the pattern characters [a], [-],
    [z], [A], [-], [Z]; the pattern character [']'] under [+]; an escaped
    opening brace; the capturing group [([^}]+)]; an escaped closing brace. *)

Module Pattern.

(** A set of code units: one character, or every character but one. *)
Inductive cclass : Type :=
| Only (c : codeunit)
| AnyBut (c : codeunit).

Definition in_class (k : cclass) (c : codeunit) : bool :=
  match k with
  | Only d => N.eqb c d
  | AnyBut d => negb (N.eqb c d)
  end.

(** The fragment of the pattern language the source uses. *)
Inductive regex : Type :=
| Chr (k : cclass)              (* one character of the class *)
| Many1 (k : cclass)            (* [k+], greedy *)
| Cat (r1 r2 : regex)           (* [r1] then [r2] *)
| Capture (r : regex).          (* the capturing group number 1 *)

(** The state of a match in progress: the input still ahead, and what group
    1 holds. *)
Record mstate : Type := MState {
  ahead : jsstring;
  group1 : option jsstring
}.

(** The ways [k+] can consume a prefix of [s], the longest first: what is
    left of [s] after each. *)
Fixpoint many1 (k : cclass) (s : jsstring) : list jsstring :=
  match s with
  | c :: s' => if in_class k c then many1 k s' ++ [s'] else []
  | [] => []
  end.

(** Backtracking as a list of successes, in the order the matcher tries
    them. *)
Fixpoint run (r : regex) (m : mstate) : list mstate :=
  match r with
  | Chr k =>
      match ahead m with
      | c :: s' => if in_class k c then [MState s' (group1 m)] else []
      | [] => []
      end
  | Many1 k => map (fun s' => MState s' (group1 m)) (many1 k (ahead m))
  | Cat r1 r2 => flat_map (run r2) (run r1 m)
  | Capture r1 =>
      map (fun m' =>
             MState (ahead m')
                    (Some (take (length (ahead m) - length (ahead m')) (ahead m))))
          (run r1 m)
  end.

(** One attempt at the start of [s]: the first success, if any. *)
Definition exec (r : regex) (s : jsstring) : option mstate :=
  head (run r (MState s None)).

(** The replacement text ['$1']: group 1, empty when it did not take part. *)
Definition dollar1 (m : mstate) : jsstring :=
  default [] (group1 m).

(** [s.replace(r, '$1')] for a global [r] none of whose matches is empty
    (every pattern of [regex] consumes a character).  The scan moves left to
    right; [skip] counts the characters of the current match that are still
    to be passed over, which is how [lastIndex] jumps to the end of a
    match. *)
Fixpoint replace_from (r : regex) (skip : nat) (s : jsstring) : jsstring :=
  match s with
  | [] => []
  | c :: s' =>
      match skip with
      | S k => replace_from r k s'
      | O =>
          match exec r s with
          | Some m =>
              dollar1 m ++
              replace_from r (length s - length (ahead m) - 1) s'
          | None => c :: replace_from r 0 s'
          end
      end
  end.

Definition replace_all (r : regex) (s : jsstring) : jsstring :=
  replace_from r 0 s.

Definition chr (a : ascii) : regex := Chr (Only (unit_of a)).

(** The character after the backslash that opens the pattern. *)
Definition marker : codeunit := 0xE001%N.

(** [/\<U+E001>a-zA-Z]+\{([^}]+)\}/g] *)
Definition title_pattern : regex :=
  Cat (Chr (Only marker))
  (Cat (chr "a") (Cat (chr "-") (Cat (chr "z")
  (Cat (chr "A") (Cat (chr "-") (Cat (chr "Z")
  (Cat (Many1 (Only (unit_of "]")))
  (Cat (chr "{")
  (Cat (Capture (Many1 (AnyBut (unit_of "}"))))
       (chr "}")))))))))).

(** [node.title.replace(/.../g, '$1')] *)
Definition clean_title (title : jsstring) : jsstring :=
  replace_all title_pattern title.

End Pattern.
Import Pattern.

(** ** The browser and MathJax

    Two things the class relies on happen outside its file.  Assigning a
    string to [element.innerHTML] makes the browser parse it into nodes, and
    reading the property serializes those nodes: what is read is not always
    what was written.  [dom html] is the string read after [html] has been
    assigned; the elements the class assigns to and reads from are all
    [div.section-content], so the string decides it.
    [MathJax.typesetPromise] replaces the math of an element by
    its typeset form: [typeset html] is what a region reads after that when
    it read [html] before.  Nothing is assumed of either function.  MathJax
    is taken to be loaded wherever the class calls it. *)
Class Browser : Type := MkBrowser {
  dom : jsstring -> jsstring;
  typeset : jsstring -> jsstring
}.

Section Editor.
Context {B : Browser}.



(** ** The section tree and its rendering *)

(** A node of the parsed tree, as the parser hands it over. *)
Inductive SectionNode : Type :=
  Node (level : Z) (title content : jsstring) (children : list SectionNode).

Definition level (n : SectionNode) : Z := let (l, _, _, _) := n in l.
Definition title (n : SectionNode) : jsstring := let (_, t, _, _) := n in t.
Definition content (n : SectionNode) : jsstring := let (_, _, c, _) := n in c.
Definition children (n : SectionNode) : list SectionNode :=
  let (_, _, _, ch) := n in ch.

(** [element.style.display]: never assigned, ['none'] or ['block']. *)
Inductive display : Type := DisplayUnset | DisplayNone | DisplayBlock.

(** The [div.section-content] of a block. *)
Record Region : Type := MkRegion {
  contentEditable : bool;
  innerHTML : jsstring;               (* what reading the property gives *)
  ariaLabel : jsstring;
  regionDisplay : display
}.

(** The [div.section-block] that [renderNode] returns. *)
Inductive Block : Type :=
  MkBlock (datasetLevel : Z)          (* block and header [dataset.level] *)
          (ariaExpanded : bool)       (* header [aria-expanded] *)
          (numberText : jsstring)     (* [numberSpan.textContent] *)
          (titleText : jsstring)      (* [titleSpan.textContent] *)
          (toggleGlyph : jsstring)    (* [toggleBtn.innerHTML] *)
          (region : Region)           (* the content element *)
          (nestedDisplay : display)   (* [nested.style.display] *)
          (nested : list Block).      (* the blocks in [nested] *)

Definition numberText (b : Block) : jsstring :=
  let (_, _, n, _, _, _, _, _) := b in n.
Definition titleText (b : Block) : jsstring :=
  let (_, _, _, t, _, _, _, _) := b in t.
Definition region (b : Block) : Region :=
  let (_, _, _, _, _, r, _, _) := b in r.
Definition nested (b : Block) : list Block :=
  let (_, _, _, _, _, _, _, bs) := b in bs.

(** U+25BC, the glyph of an expanded section. *)
Definition glyph_down : jsstring := [0x25BC%N].

(** [`${index + 1}`] *)
Definition ordinal (index : nat) : jsstring := decimal (N.of_nat (index + 1)).

(** [renderNode(node, number)].  The inner loop is
    [node.children.forEach((child, index) => ...)], started at [index].
    The region is assigned [node.content] and reads what the browser makes
    of it. *)
Fixpoint renderNode (node : SectionNode) (number : jsstring) : Block :=
  match node with
  | Node lvl ttl cnt chn =>
      MkBlock lvl true
        (if 0 <? lvl then number ++ lit " " else [])
        (clean_title ttl)
        glyph_down
        (MkRegion true (dom cnt) (ttl ++ lit " content") DisplayUnset)
        DisplayUnset
        ((fix each (index : nat) (l : list SectionNode) : list Block :=
            match l with
            | [] => []
            | child :: l' =>
                renderNode child (number ++ lit "." ++ ordinal index)
                :: each (S index) l'
            end) O chn)
  end.

(** The loop of [renderNode] over the children, from [index] on. *)
Fixpoint renderChildren (number : jsstring) (index : nat)
    (l : list SectionNode) : list Block :=
  match l with
  | [] => []
  | child :: l' =>
      renderNode child (number ++ lit "." ++ ordinal index)
      :: renderChildren number (S index) l'
  end.

(** The loop of [render] over the top-level nodes, from [index] on:
    [this.nodes.forEach((node, index) => ... renderNode(node, `${index + 1}`))]. *)
Fixpoint renderTop (index : nat) (l : list SectionNode) : list Block :=
  match l with
  | [] => []
  | node :: l' => renderNode node (ordinal index) :: renderTop (S index) l'
  end.

(** What [#latexContainer] holds: the markup of the page as served (not part
    of the source file), the "No Sections Found" screen, or rendered
    blocks. *)
Inductive View : Type :=
| Untouched
| NoSections
| Sections (blocks : list Block).

(** The content regions below a block, in document order. *)
Fixpoint block_regions (b : Block) : list Region :=
  match b with
  | MkBlock _ _ _ _ _ r _ bs => r :: flat_map block_regions bs
  end.

(** [document.querySelectorAll('.section-content')]: only rendered blocks
    carry that class. *)
Definition regions (v : View) : list Region :=
  match v with
  | Sections bs => flat_map block_regions bs
  | _ => []
  end.

(** [querySelectorAll('.section-content').forEach((e, i) => ...)] where the
    body assigns to properties of [e]: [f i] is applied to the [i]-th region
    of the document, counted from [index]. *)
Fixpoint forEach_block (f : nat -> Region -> Region) (index : nat)
    (b : Block) : Block :=
  match b with
  | MkBlock lvl ex num ttl gl r nd bs =>
      MkBlock lvl ex num ttl gl (f index r) nd
        ((fix each (i : nat) (l : list Block) : list Block :=
            match l with
            | [] => []
            | x :: l' =>
                forEach_block f i x :: each (i + length (block_regions x))%nat l'
            end) (S index) bs)
  end.

Fixpoint forEach_blocks (f : nat -> Region -> Region) (index : nat)
    (l : list Block) : list Block :=
  match l with
  | [] => []
  | x :: l' =>
      forEach_block f index x
      :: forEach_blocks f (index + length (block_regions x))%nat l'
  end.

Definition forEach_region (f : nat -> Region -> Region) (v : View) : View :=
  match v with
  | Sections bs => Sections (forEach_blocks f O bs)
  | _ => v
  end.

(** The positions of a tree: sibling indices, counted from 0, from the top
    level down. *)
Definition path : Type := list nat.

Fixpoint node_at (p : path) (l : list SectionNode) : option SectionNode :=
  match p with
  | [] => None
  | [i] => l !! i
  | i :: p' =>
      match l !! i with
      | Some n => node_at p' (children n)
      | None => None
      end
  end.

Fixpoint block_at (p : path) (l : list Block) : option Block :=
  match p with
  | [] => None
  | [i] => l !! i
  | i :: p' =>
      match l !! i with
      | Some b => block_at p' (nested b)
      | None => None
      end
  end.

(** The dotted number of a position: ["i"] at the top level, ["p.j"] for the
    child [j] of the position numbered ["p"], all counted from 1. *)
Fixpoint dotted_from (number : jsstring) (p : path) : jsstring :=
  match p with
  | [] => number
  | j :: p' => dotted_from (number ++ lit "." ++ ordinal j) p'
  end.

Definition dotted (p : path) : jsstring :=
  match p with
  | [] => []
  | i :: p' => dotted_from (ordinal i) p'
  end.

(** ** The editor object, the page and the timers *)

(** One entry of [this.history]: the markup of every content region, in
    document order. *)
Definition Snapshot : Type := list jsstring.

(** What a pending timer runs: [() => this.pushHistory()] of the input
    listener, or the arrow function of [showStatus] that hides the message. *)
Inductive callback : Type := PushHistory | HideStatus.

Record Timer : Type := MkTimer {
  timerId : N;
  due : N;                  (* in milliseconds on [clock] *)
  timerCallback : callback
}.

(** Calls that leave the program. *)
Inductive outside : Type :=
| ConsoleError              (* [console.error(...)] *)
| TypesetAll.               (* [MathJax.typesetPromise()] *)

Record World : Type := MkWorld {
  (* the fields of the [LatexEditor] object *)
  history : list Snapshot;
  historyIndex : Z;
  rendering : bool;
  debounceTimer : option N;               (* [null], or a timer id *)
  nodes : option (list SectionNode);      (* unset until a file is parsed *)
  (* the page *)
  container : View;                       (* [#latexContainer] *)
  statusText : jsstring;                  (* [#statusMessage] text *)
  statusShown : bool;                     (* its class [show] *)
  loadingActive : bool;                   (* [#loadingOverlay] class [active] *)
  undoDisabled : bool;
  redoDisabled : bool;
  (* the event loop *)
  clock : N;
  nextTimer : N;
  timers : list Timer;
  calls : list outside
}.

Definition set_history (h : list Snapshot) (w : World) : World :=
  MkWorld h (historyIndex w) (rendering w) (debounceTimer w) (nodes w)
    (container w) (statusText w) (statusShown w) (loadingActive w)
    (undoDisabled w) (redoDisabled w) (clock w) (nextTimer w) (timers w)
    (calls w).

Definition set_historyIndex (i : Z) (w : World) : World :=
  MkWorld (history w) i (rendering w) (debounceTimer w) (nodes w)
    (container w) (statusText w) (statusShown w) (loadingActive w)
    (undoDisabled w) (redoDisabled w) (clock w) (nextTimer w) (timers w)
    (calls w).

Definition set_debounceTimer (t : option N) (w : World) : World :=
  MkWorld (history w) (historyIndex w) (rendering w) t (nodes w)
    (container w) (statusText w) (statusShown w) (loadingActive w)
    (undoDisabled w) (redoDisabled w) (clock w) (nextTimer w) (timers w)
    (calls w).

Definition set_nodes (ns : list SectionNode) (w : World) : World :=
  MkWorld (history w) (historyIndex w) (rendering w) (debounceTimer w)
    (Some ns) (container w) (statusText w) (statusShown w) (loadingActive w)
    (undoDisabled w) (redoDisabled w) (clock w) (nextTimer w) (timers w)
    (calls w).

Definition set_container (v : View) (w : World) : World :=
  MkWorld (history w) (historyIndex w) (rendering w) (debounceTimer w)
    (nodes w) v (statusText w) (statusShown w) (loadingActive w)
    (undoDisabled w) (redoDisabled w) (clock w) (nextTimer w) (timers w)
    (calls w).

Definition set_status (text : jsstring) (shown : bool) (w : World) : World :=
  MkWorld (history w) (historyIndex w) (rendering w) (debounceTimer w)
    (nodes w) (container w) text shown (loadingActive w)
    (undoDisabled w) (redoDisabled w) (clock w) (nextTimer w) (timers w)
    (calls w).

Definition set_loading (active : bool) (w : World) : World :=
  MkWorld (history w) (historyIndex w) (rendering w) (debounceTimer w)
    (nodes w) (container w) (statusText w) (statusShown w) active
    (undoDisabled w) (redoDisabled w) (clock w) (nextTimer w) (timers w)
    (calls w).

Definition set_buttons (undo_off redo_off : bool) (w : World) : World :=
  MkWorld (history w) (historyIndex w) (rendering w) (debounceTimer w)
    (nodes w) (container w) (statusText w) (statusShown w) (loadingActive w)
    undo_off redo_off (clock w) (nextTimer w) (timers w) (calls w).

Definition set_clock (now : N) (w : World) : World :=
  MkWorld (history w) (historyIndex w) (rendering w) (debounceTimer w)
    (nodes w) (container w) (statusText w) (statusShown w) (loadingActive w)
    (undoDisabled w) (redoDisabled w) now (nextTimer w) (timers w) (calls w).

Definition set_timers (next : N) (ts : list Timer) (w : World) : World :=
  MkWorld (history w) (historyIndex w) (rendering w) (debounceTimer w)
    (nodes w) (container w) (statusText w) (statusShown w) (loadingActive w)
    (undoDisabled w) (redoDisabled w) (clock w) next ts (calls w).

Definition add_call (c : outside) (w : World) : World :=
  MkWorld (history w) (historyIndex w) (rendering w) (debounceTimer w)
    (nodes w) (container w) (statusText w) (statusShown w) (loadingActive w)
    (undoDisabled w) (redoDisabled w) (clock w) (nextTimer w) (timers w)
    (calls w ++ [c]).

(** The region with [html] for its markup. *)
Definition with_markup (html : jsstring) (e : Region) : Region :=
  MkRegion (contentEditable e) html (ariaLabel e) (regionDisplay e).

(** [e.innerHTML = html]: from then on the property reads [dom html]. *)
Definition set_innerHTML (html : jsstring) (e : Region) : Region :=
  with_markup (dom html) e.

(** MathJax typesets the region. *)
Definition typeset_region (e : Region) : Region :=
  with_markup (typeset (innerHTML e)) e.

(** How a call ended: it returned, or it threw; either way with the state it
    left behind. *)
Inductive completion : Type :=
| Returned (w : World)
| Threw (w : World).

(** [a[i]] for an integer [i]: [undefined] outside the array. *)
Definition js_index {A : Type} (l : list A) (i : Z) : option A :=
  if i <? 0 then None else l !! Z.to_nat i.

(** [a.slice(0, e)]: a negative [e] counts from the end, and both ends are
    clamped to the array. *)
Definition slice0 {A : Type} (l : list A) (e : Z) : list A :=
  if e <? 0
  then take (Z.to_nat (Z.max (Z.of_nat (length l) + e) 0)) l
  else take (Z.to_nat e) l.

Fixpoint snapshot_eqb (a b : Snapshot) : bool :=
  match a, b with
  | [], [] => true
  | s :: a', t :: b' => JsString.eqb s t && snapshot_eqb a' b'
  | _, _ => false
  end.

(** [JSON.stringify(a) === JSON.stringify(b)] for an array of strings [a]
    and [b] an array of strings or [undefined].  The text of an array of
    strings quotes and escapes each element, so two arrays have the same
    text exactly when they are equal; [JSON.stringify(undefined)] is
    [undefined], which no string equals. *)
Definition same_json (a : Snapshot) (b : option Snapshot) : bool :=
  match b with
  | Some b' => snapshot_eqb a b'
  | None => false
  end.

(** [setTimeout(cb, delay)]: the id it returns, and the state with the timer
    pending. *)
Definition setTimeout (cb : callback) (delay : N) (w : World) : N * World :=
  (nextTimer w,
   set_timers (nextTimer w + 1)
     (timers w ++ [MkTimer (nextTimer w) (clock w + delay) cb]) w).

Definition timer_is (id : N) (t : Timer) : bool := N.eqb (timerId t) id.

(** [clearTimeout(id)]; [null] and ids that are not pending do nothing. *)
Definition clearTimeout (id : option N) (w : World) : World :=
  match id with
  | None => w
  | Some i =>
      set_timers (nextTimer w)
        (List.filter (fun t => negb (timer_is i t)) (timers w)) w
  end.

(** ** The methods of [LatexEditor] *)

(** The state [new LatexEditor()] leaves: the constructor's assignments,
    then [init], whose [updateButtonStates] disables both buttons. *)
Definition initial : World :=
  MkWorld [] (-1) false None None Untouched [] false false true true
    0%N 1%N [] [].

Definition updateButtonStates (w : World) : World :=
  set_buttons (historyIndex w <=? 0)
              (Z.of_nat (length (history w)) - 1 <=? historyIndex w) w.

Definition showStatus (message : jsstring) (duration : N) (w : World)
    : World :=
  snd (setTimeout HideStatus duration (set_status message true w)).

Definition showLoading (show : bool) (w : World) : World :=
  set_loading show w.

Definition render (w : World) : World :=
  match nodes w with
  | Some (n :: l) =>
      updateButtonStates (set_container (Sections (renderTop O (n :: l))) w)
  | _ => set_container NoSections w
  end.

Definition pushHistory (w : World) : World :=
  let snapshot := map innerHTML (regions (container w)) in
  if (0 <=? historyIndex w)
     && same_json snapshot (js_index (history w) (historyIndex w))
  then w
  else
    updateButtonStates
      (set_historyIndex (historyIndex w + 1)
         (set_history (slice0 (history w) (historyIndex w + 1) ++ [snapshot])
            w)).

(** [snapshot[i] || ''] *)
Definition entry_or_empty (snapshot : Snapshot) (i : nat) : jsstring :=
  default [] (snapshot !! i).

(** The last two statements of [restoreHistory], with MathJax loaded: in
    render mode [MathJax.typesetPromise()] typesets the document, of which
    the content regions are the part the class reads back. *)
Definition after_restore (w : World) : World :=
  updateButtonStates
    (if rendering w
     then add_call TypesetAll
            (set_container
               (forEach_region (fun _ e => typeset_region e) (container w)) w)
     else w).

(** [restoreHistory()].  When [this.history[this.historyIndex]] is
    [undefined], the first [snapshot[i]] throws a TypeError; with no region
    on the page the loop body never runs. *)
Definition restoreHistory (w : World) : completion :=
  match js_index (history w) (historyIndex w) with
  | Some snapshot =>
      Returned
        (after_restore
           (set_container
              (forEach_region
                 (fun i e => set_innerHTML (entry_or_empty snapshot i) e)
                 (container w)) w))
  | None =>
      match regions (container w) with
      | [] => Returned (after_restore w)
      | _ :: _ => Threw w
      end
  end.

Definition undo (w : World) : completion :=
  if 0 <? historyIndex w then
    match restoreHistory (set_historyIndex (historyIndex w - 1) w) with
    | Returned w' => Returned (showStatus (lit "Undo successful") 3000 w')
    | Threw w' => Threw w'
    end
  else Returned w.

Definition redo (w : World) : completion :=
  if historyIndex w <? Z.of_nat (length (history w)) - 1 then
    match restoreHistory (set_historyIndex (historyIndex w + 1) w) with
    | Returned w' => Returned (showStatus (lit "Redo successful") 3000 w')
    | Threw w' => Threw w'
    end
  else Returned w.

(** ** Edits and the event loop *)

(** The user edits the [i]-th content region, after which its [innerHTML]
    reads [html], and the browser delivers the [input] event to that
    region's listener:
    [clearTimeout(this.debounceTimer)], then
    [this.debounceTimer = setTimeout(() => this.pushHistory(), 500)].
    There is no such event for a region that is not on the page. *)
Definition type_in (i : nat) (html : jsstring) (v : View) : View :=
  forEach_region (fun k e => if (k =? i)%nat then with_markup html e else e) v.

Definition input (i : nat) (html : jsstring) (w : World) : World :=
  if (i <? length (regions (container w)))%nat then
    let w1 := set_container (type_in i html (container w)) w in
    let w2 := clearTimeout (debounceTimer w1) w1 in
    let (id, w3) := setTimeout PushHistory 500 w2 in
    set_debounceTimer (Some id) w3
  else w.

Definition run_callback (cb : callback) (w : World) : World :=
  match cb with
  | PushHistory => pushHistory w
  | HideStatus =>
      set_status (statusText w) false w
  end.

(** The pending timer that fires next: the least due time, and among equal
    ones the timer that was set first. *)
Fixpoint first_due (ts : list Timer) : option Timer :=
  match ts with
  | [] => None
  | t :: ts' =>
      match first_due ts' with
      | Some u => if (due u <? due t)%N then Some u else Some t
      | None => Some t
      end
  end.

(** One round of the event loop: the timer [t] fires.  The clock has
    reached its due time, the timer leaves the queue, its callback runs. *)
Definition fire_step (t : Timer) (w : World) : World :=
  run_callback (timerCallback t)
    (clearTimeout (Some (timerId t)) (set_clock (N.max (clock w) (due t)) w)).

(** The event loop up to [deadline]: each timer that is due by then is taken
    off the queue and its callback run to completion, in firing order.  No
    callback of this program sets a timer, so the number of pending timers
    bounds the number of rounds. *)
Fixpoint fire (rounds : nat) (deadline : N) (w : World) : World :=
  match rounds with
  | O => w
  | S rounds' =>
      match first_due (timers w) with
      | Some t =>
          if (due t <=? deadline)%N
          then fire rounds' deadline (fire_step t w)
          else w
      | None => w
      end
  end.

(** [dt] milliseconds pass with no event other than timers. *)
Definition elapse (dt : N) (w : World) : World :=
  set_clock (clock w + dt) (fire (length (timers w)) (clock w + dt) w).

(** ** Loading a file *)

(** A [File]: its declared type, its name, and what [file.text()] settles
    to ([None] when the promise rejects). *)
Record File : Type := MkFile {
  fileType : jsstring;
  fileName : jsstring;
  fileText : option jsstring
}.

(** The global [parseLatex] of latex-regex.js, which is not part of this
    file: it may not be defined as a function at all, and when it is, a call
    returns the section nodes or throws ([None]). *)
Inductive Parser : Type :=
| NoParser
| ParserFn (parse : jsstring -> option (list SectionNode)).

(** What lines 87 to 91 assign to [this.nodes]: the result of
    [parseLatex(text)] when [typeof parseLatex === 'function'], the empty
    array otherwise; [None] when the call throws. *)
Definition parsed_nodes (parseLatex : Parser) (text : jsstring)
    : option (list SectionNode) :=
  match parseLatex with
  | ParserFn parse => parse text
  | NoParser => Some []
  end.

(** The statements of the [try] block that follow the size check. *)
Definition parse_and_show (parseLatex : Parser) (text : jsstring) (w : World)
    : completion :=
  match parsed_nodes parseLatex text with
  | Some ns =>
      Returned
        (showStatus (lit "File loaded successfully") 3000
           (pushHistory (render (set_nodes ns w))))
  | None => Threw w
  end.

(** The [try] block of [loadFile]. *)
Definition try_load (parseLatex : Parser) (file : File) (w : World)
    : completion :=
  match fileText file with
  | None => Threw w
  | Some text =>
      if (1000000 <? N.of_nat (length text))%N
      then Returned (showStatus (lit "File too large (max 1MB)") 3000 w)
      else parse_and_show parseLatex text w
  end.

(** [loadFile(file)], taken from the moment [file.text()] has settled.  The
    [catch] clause logs and reports whatever the [try] block threw; the
    [finally] clause hides the overlay on every way out of it.

    The argument is a [File]: the one the drop listener passes, or the
    [files[0]] that line 74 takes from a change event ([on_change] below
    has the event that carries none).  Inside the [try] block [render] is
    run on a node list of the shape [SectionNode] describes, on which it
    does not throw. *)
Definition loadFile (parseLatex : Parser) (file : File) (w : World) : World :=
  if negb (includes (lit "text/") (fileType file))
     && negb (endsWith (lit ".tex") (fileName file))
  then showStatus (lit "Please upload a valid LaTeX (.tex) file") 3000 w
  else
    let w1 := showLoading true w in
    let w2 :=
      match try_load parseLatex file w1 with
      | Returned w' => w'
      | Threw w' =>
          showStatus
            (lit "Error loading file. Please check console for details.") 3000
            (add_call ConsoleError w')
      end in
    showLoading false w2.

(** The [change] listener of the file input: [loadFile(e)] with the event.
    Line 74 takes [files[0]] from it.  When the user picked no file, [file]
    is the event itself, whose [name] is undefined, and the test of line 75
    throws before any statement of the method has had an effect. *)
Definition on_change (parseLatex : Parser) (picked : option File) (w : World)
    : completion :=
  match picked with
  | Some file => Returned (loadFile parseLatex file w)
  | None => Threw w
  end.

(** ** The invariant of the history log *)

(** The cursor is [-1] exactly when there are no entries, and an index of
    [history] otherwise. *)
Definition log_ok (w : World) : Prop :=
  (historyIndex w = -1 <-> history w = []) /\
  (history w <> [] -> 0 <= historyIndex w <= Z.of_nat (length (history w)) - 1).

(** The markup of the content regions, in document order. *)
Definition contents (w : World) : Snapshot :=
  map innerHTML (regions (container w)).

(** What [restoreHistory] assigns on a page of [n] regions from
    [snapshot]. *)
Definition restored (snapshot : Snapshot) (n : nat) : Snapshot :=
  map (entry_or_empty snapshot) (seq 0 n).

(** [this.history[this.historyIndex]] *)
Definition entry (w : World) : option Snapshot :=
  js_index (history w) (historyIndex w).

(** The state [pushHistory] builds when it does not return early. *)
Definition pushed (w : World) : World :=
  updateButtonStates
    (set_historyIndex (historyIndex w + 1)
       (set_history (slice0 (history w) (historyIndex w + 1) ++ [contents w])
          w)).

(** ** Scenarios *)

(** [loadFile] goes past its first test: the declared type contains
    ["text/"] or the name ends in [".tex"]. *)
Definition accepted (file : File) : Prop :=
  includes (lit "text/") (fileType file) = true \/
  endsWith (lit ".tex") (fileName file) = true.

(** An edit that ends in a push: the user brings the regions to hold
    [snapshot] and then pauses, so that the debounce timer runs
    [pushHistory]. *)
Definition type_all (snapshot : Snapshot) (v : View) : View :=
  forEach_region (fun i e => with_markup (entry_or_empty snapshot i) e) v.

Definition edit (snapshot : Snapshot) (w : World) : World :=
  pushHistory (set_container (type_all snapshot (container w)) w).

Definition edits (snapshots : list Snapshot) (w : World) : World :=
  foldl (fun w' s => edit s w') w snapshots.

(** [undo()] called [k] times. *)
Fixpoint undos (k : nat) (w : World) : completion :=
  match k with
  | O => Returned w
  | S k' =>
      match undo w with
      | Returned w' => undos k' w'
      | Threw w' => Threw w'
      end
  end.

(** The pending timers that will run [pushHistory]. *)
Definition is_push (t : Timer) : bool :=
  match timerCallback t with
  | PushHistory => true
  | HideStatus => false
  end.

Definition pending_pushes (w : World) : list Timer :=
  List.filter is_push (timers w).

(** What the timer queue looks like in a running editor: a pending
    [pushHistory] timer is the one [this.debounceTimer] names, the ids of
    pending timers are distinct, and they are ids already handed out. *)
Definition timers_ok (w : World) : Prop :=
  (forall t, In t (timers w) -> is_push t = true ->
             debounceTimer w = Some (timerId t)) /\
  NoDup (map timerId (timers w)) /\
  (forall t, In t (timers w) -> (timerId t < nextTimer w)%N).

(** Two states with the same log and the same page. *)
Definition same_page (w w' : World) : Prop :=
  history w = history w' /\ historyIndex w = historyIndex w' /\
  container w = container w'.

(** ** Sessions *)

(** What can happen to the editor: a file is loaded (with whatever
    [parseLatex] the page provides), the user edits a region, time passes,
    the user asks for undo or redo. *)
Inductive event : Type :=
| Load (parseLatex : Parser) (file : File)
| Input (i : nat) (html : jsstring)
| Elapse (dt : N)
| Undo
| Redo.

Definition handle (e : event) (w : World) : completion :=
  match e with
  | Load parseLatex file => Returned (loadFile parseLatex file w)
  | Input i html => Returned (input i html w)
  | Elapse dt => Returned (elapse dt w)
  | Undo => undo w
  | Redo => redo w
  end.

(** The events of a session, one after the other, for as long as no
    handler throws. *)
Fixpoint session (es : list event) (w : World) : completion :=
  match es with
  | [] => Returned w
  | e :: es' =>
      match handle e w with
      | Returned w' => session es' w'
      | Threw w' => Threw w'
      end
  end.

(** What a region reads once [restoreHistory] has assigned [html] to it. *)
Definition reads_back (w : World) (html : jsstring) : jsstring :=
  if rendering w then typeset (dom html) else dom html.

(** The regions hold the entry at the cursor, as [pushHistory] took it from
    them or as [restoreHistory] put it there. *)
Definition in_sync (w : World) : Prop :=
  exists snapshot,
    entry w = Some snapshot /\
    (contents w = snapshot \/
     contents w
     = map (reads_back w) (restored snapshot (length (contents w)))).

(** With no edit waiting for the debounce timer, the regions are in sync
    with the log. *)
Definition settled (w : World) : Prop :=
  pending_pushes w = [] -> 0 <= historyIndex w -> in_sync w.

Definition sound (w : World) : Prop :=
  log_ok w /\ timers_ok w /\ settled w.

End Editor.

(** ** Sample inputs *)

(** A parser that finds one section, titled "Intro", holding the whole
    text, and a parser that throws. *)
Definition one_section : Parser :=
  ParserFn (fun text => Some [Node 1 (lit "Intro") text []]).

Definition throwing : Parser := ParserFn (fun _ => None).

(** A parser that finds two top-level sections. *)
Definition two_sections : Parser :=
  ParserFn (fun text =>
    Some [Node 1 (lit "First") text []; Node 1 (lit "Second") text []]).

(** A file of type text/plain holding [text]. *)
Definition text_file (text : jsstring) : File :=
  MkFile (lit "text/plain") (lit "notes.tex") (Some text).

(** A browser for the examples.  It reads markup back as it was assigned,
    except that a line feed right after the start tag of a [pre] element is
    gone, which is what the HTML parser does with it.  Its MathJax wraps a
    region that holds a dollar sign into one container element, which
    stands for the typeset form, and leaves a region without one alone.
    The other strings of the examples are plain text, which a browser reads
    back as it is. *)
Definition drop_pre_newline (html : jsstring) : jsstring :=
  if startsWith (lit "<pre>" ++ [10%N]) html
  then lit "<pre>" ++ drop 6 html
  else html.

Definition wrap_math (html : jsstring) : jsstring :=
  if includes (lit "$") html
  then lit "<mjx-container>" ++ html ++ lit "</mjx-container>"
  else html.

Definition sample_browser : Browser := MkBrowser drop_pre_newline wrap_math.

(** ** Auxiliary definitions *)

(** The text the pattern matches: the marker, [a-zA-Z], one or more [']'],
    and a braced argument. *)
Definition wrapper (n : nat) (arg : jsstring) : jsstring :=
  marker :: lit "a-zA-Z" ++ replicate (S n) (unit_of "]")
  ++ lit "{" ++ arg ++ lit "}".


(** Induction on blocks and on nodes, with the hypothesis for every block
  or node one level down. *)
Section BlockInduction.
Variable P : Block -> Prop.
Hypothesis step :
  forall lvl ex num ttl gl r nd bs,
    Forall P bs -> P (MkBlock lvl ex num ttl gl r nd bs).

Fixpoint Block_nested_ind (b : Block) : P b :=
  match b with
  | MkBlock lvl ex num ttl gl r nd bs =>
      step lvl ex num ttl gl r nd bs
        ((fix all (l : list Block) : Forall P l :=
            match l with
            | [] => @List.Forall_nil _ P
            | x :: l' => @List.Forall_cons _ P x l' (Block_nested_ind x) (all l')
            end) bs)
  end.
End BlockInduction.

Section NodeInduction.
Variable P : SectionNode -> Prop.
Hypothesis step :
  forall lvl ttl cnt chn, Forall P chn -> P (Node lvl ttl cnt chn).

Fixpoint Node_nested_ind (n : SectionNode) : P n :=
  match n with
  | Node lvl ttl cnt chn =>
      step lvl ttl cnt chn
        ((fix all (l : list SectionNode) : Forall P l :=
            match l with
            | [] => @List.Forall_nil _ P
            | x :: l' => @List.Forall_cons _ P x l' (Node_nested_ind x) (all l')
            end) chn)
  end.
End NodeInduction.

Section Desktop.
Context {B : Browser}.

(** ** Collapsing a section *)

Definition ariaExpanded (b : Block) : bool :=
  let (_, ex, _, _, _, _, _, _) := b in ex.
Definition toggleGlyph (b : Block) : jsstring :=
  let (_, _, _, _, gl, _, _, _) := b in gl.
Definition nestedDisplay (b : Block) : display :=
  let (_, _, _, _, _, _, nd, _) := b in nd.

(** U+25B6, the glyph of a collapsed section. *)
Definition glyph_right : jsstring := [0x25B6%N].

(** [content.style.display !== 'none'] *)
Definition isVisible (b : Block) : bool :=
  match regionDisplay (region b) with
  | DisplayNone => false
  | _ => true
  end.

(** The closure [toggleVisibility] of [renderNode], on the block it was
    created for. *)
Definition toggleVisibility (b : Block) : Block :=
  match b with
  | MkBlock lvl ex num ttl gl r nd bs =>
      let visible := isVisible b in
      MkBlock lvl (negb visible) num ttl
        (if visible then glyph_right else glyph_down)
        (MkRegion (contentEditable r) (innerHTML r) (ariaLabel r)
           (if visible then DisplayNone else DisplayBlock))
        (if visible then DisplayNone else DisplayBlock)
        bs
  end.

Definition set_nested (bs : list Block) (b : Block) : Block :=
  match b with
  | MkBlock lvl ex num ttl gl r nd _ => MkBlock lvl ex num ttl gl r nd bs
  end.

(** The forest with [f] applied to the block at position [p]; a position
    with no block leaves the forest as it is. *)
Fixpoint at_path (f : Block -> Block) (p : path) (l : list Block)
    : list Block :=
  match p with
  | [] => l
  | i :: p' =>
      match p' with
      | [] => alter f i l
      | _ :: _ => alter (fun b => set_nested (at_path f p' (nested b)) b) i l
      end
  end.

(** A click on the header of the block at [p]. *)
Definition click_header (p : path) (v : View) : View :=
  match v with
  | Sections bs => Sections (at_path toggleVisibility p bs)
  | _ => v
  end.

(** The [keydown] listener of that header, for a key event with [e.key =
    key]: the page afterwards, and whether [preventDefault] was called. *)
Definition header_keydown (p : path) (key : jsstring) (v : View)
    : View * bool :=
  if JsString.eqb key (lit "Enter") || JsString.eqb key (lit " ")
  then (click_header p v, true)
  else (v, false).



(** The block without the blocks nested in it. *)
Definition own (b : Block) : Block := set_nested [] b.

(** ** Render mode, export and shortcuts *)

Definition set_rendering (r : bool) (w : World) : World :=
  MkWorld (history w) (historyIndex w) r (debounceTimer w) (nodes w)
    (container w) (statusText w) (statusShown w) (loadingActive w)
    (undoDisabled w) (redoDisabled w) (clock w) (nextTimer w) (timers w)
    (calls w).

Definition set_contentEditable (editable : bool) (e : Region) : Region :=
  MkRegion editable (innerHTML e) (ariaLabel e) (regionDisplay e).

(** The calls [toggleRender] makes: [MathJax.typesetPromise([editor])] for
    the region at an index, and [MathJax.typesetClear()]. *)
Inductive mathjax_call : Type :=
| TypesetPromise (index : nat)
| TypesetClear.

(** What [link.click()] hands to the browser: the [download] name, and the
    text and type of the blob. *)
Record Download : Type := MkDownload {
  downloadName : jsstring;
  downloadText : jsstring;
  downloadType : jsstring
}.

(** The timer of [save] that revokes an object URL: its id, its due time and
    the URL, counted by download. *)
Record Revocation : Type := MkRevocation {
  revokeTimer : N;
  revokeDue : N;
  revokeUrl : nat
}.

(** The editor together with what [toggleRender] and [save] reach beyond
    it.  The timer of [save] only revokes a URL; it takes its id from the
    same counter as the other timers and is kept in [revocations]. *)
Record Desk : Type := MkDesk {
  world : World;
  renderBtnText : option jsstring;    (* [#renderToggleBtn] text, once set *)
  renderBtnPressed : option bool;     (* its [aria-pressed], once set *)
  mathjax : list mathjax_call;
  downloads : list Download;
  revocations : list Revocation
}.

Definition new_desk : Desk := MkDesk initial None None [] [] [].

Definition with_world (w : World) (d : Desk) : Desk :=
  MkDesk w (renderBtnText d) (renderBtnPressed d) (mathjax d) (downloads d)
    (revocations d).

(** [toggleRender()], with MathJax loaded.  On the way into render mode
    each region is typeset; on the way out [typesetClear] forgets what was
    typeset and leaves the regions as they are.  A promise that rejects
    later is logged by its [catch] handler and changes nothing here. *)
Definition toggleRender (d : Desk) : Desk :=
  let w := world d in
  let r := negb (rendering w) in
  let w1 := set_rendering r w in
  let w2 :=
    set_container
      (forEach_region
         (fun _ e =>
            let e' := set_contentEditable (negb r) e in
            if r then typeset_region e' else e')
         (container w1)) w1 in
  MkDesk
    (showStatus
       (if r then lit "Math rendering enabled" else lit "Edit mode enabled")
       3000 w2)
    (Some (if r then lit "Edit Mode" else lit "Render Math"))
    (Some r)
    (mathjax d
     ++ map (fun i => if r then TypesetPromise i else TypesetClear)
          (seq 0 (length (regions (container w)))))
    (downloads d) (revocations d).

(** [a.join(sep)] *)
Fixpoint join (sep : jsstring) (l : list jsstring) : jsstring :=
  match l with
  | [] => []
  | s :: l' =>
      match l' with
      | [] => s
      | _ :: _ => s ++ sep ++ join sep l'
      end
  end.

(** ['\n\n'] *)
Definition blank_line : jsstring := [10%N; 10%N].

(** [save()].  [text_of] gives the [textContent] of a region from its
    markup, as the DOM computes it, and [iso] is what
    [new Date().toISOString()] returns. *)
Definition save (text_of : jsstring -> jsstring) (iso : jsstring) (d : Desk)
    : Desk :=
  let w := world d in
  let content :=
    join blank_line
      (map (fun e => text_of (innerHTML e)) (regions (container w))) in
  let file :=
    MkDownload (lit "latex-document-" ++ take 10 iso ++ lit ".tex")
      content (lit "text/plain") in
  let revoke :=
    MkRevocation (nextTimer w) (clock w + 1000) (length (downloads d)) in
  MkDesk
    (showStatus (lit "Document saved successfully") 3000
       (set_timers (nextTimer w + 1) (timers w) w))
    (renderBtnText d) (renderBtnPressed d) (mathjax d)
    (downloads d ++ [file]) (revocations d ++ [revoke]).





(** ** Further scenarios *)


(** The two buttons are disabled exactly where [undo] and [redo] return at
    once. *)
Definition buttons_ok (w : World) : Prop :=
  undoDisabled w = (historyIndex w <=? 0) /\
  redoDisabled w = (Z.of_nat (length (history w)) - 1 <=? historyIndex w).


(** A freshly rendered region: editable, with no display style set. *)
Definition fresh_region (e : Region) : Prop :=
  contentEditable e = true /\ regionDisplay e = DisplayUnset.



(** The editor with the header at [p] clicked. *)
Definition collapse (p : path) (w : World) : World :=
  set_container (click_header p (container w)) w.

(** A run of edits: each one a pause followed by an [input] event. *)
Fixpoint burst (steps : list (N * nat * jsstring)) (w : World) : World :=
  match steps with
  | [] => w
  | (pause, i, html) :: rest => burst rest (input i html (elapse pause w))
  end.

(** The page with the edits of a run typed in. *)
Fixpoint typed (steps : list (N * nat * jsstring)) (v : View) : View :=
  match steps with
  | [] => v
  | (_, i, html) :: rest => typed rest (type_in i html v)
  end.

End Desktop.

(** * Properties *)

(** The theorems below hold for every browser; each binds its own.  The
    examples that follow them are run in [sample_browser]. *)
#[local] Existing Instance sample_browser.

(** ** The title pattern *)

Section TitlePattern.

Lemma exec_needs_marker (c : codeunit) (s : jsstring) :
  c <> marker -> exec title_pattern (c :: s) = None.
Proof.
  intros Hc. unfold exec, title_pattern. cbn [run ahead in_class].
  destruct (N.eqb_spec c marker) as [->|_]; [contradiction | reflexivity].
Qed.

Lemma replace_no_marker (s : jsstring) :
  marker ∉ s -> replace_from title_pattern 0 s = s.
Proof.
  induction s as [|c s IH]; intros Hs; [reflexivity|].
  apply not_elem_of_cons in Hs as [Hc Hs].
  cbn [replace_from]. rewrite exec_needs_marker by congruence.
  now rewrite IH.
Qed.

Lemma replace_skip (r : regex) (pre post : jsstring) :
  replace_from r (length pre) (pre ++ post) = replace_from r 0 post.
Proof. induction pre as [|c pre IH]; [reflexivity | exact IH]. Qed.

(** A greedy [k+] stops first where the class stops. *)
Lemma many1_longest (k : cclass) (xs : jsstring) (c : codeunit) (s : jsstring) :
  xs <> [] -> Forall (fun x => in_class k x = true) xs -> in_class k c = false ->
  exists others, many1 k (xs ++ c :: s) = (c :: s) :: others.
Proof.
  induction xs as [|x xs IH]; intros Hne Hall Hc; [contradiction|].
  apply Forall_cons in Hall as [Hx Hall]. cbn [app many1]. rewrite Hx.
  destruct xs as [|y xs].
  - cbn [app many1]. rewrite Hc. now exists [].
  - destruct IH as [others Ho]; [discriminate | assumption | assumption |].
    rewrite Ho. now exists (others ++ [(y :: xs) ++ c :: s]).
Qed.

Lemma run_chr_cat (c : codeunit) (r : regex) (s : jsstring)
    (g : option jsstring) :
  run (Cat (Chr (Only c)) r) (MState (c :: s) g) = run r (MState s g).
Proof.
  cbn [run ahead group1 in_class]. rewrite N.eqb_refl.
  cbn [flat_map]. apply app_nil_r.
Qed.

Lemma head_app_Some {A : Type} (l l' : list A) (x : A) :
  head l = Some x -> head (l ++ l') = Some x.
Proof. destruct l; [discriminate | intros H; exact H]. Qed.

Lemma run_many1_cat (k : cclass) (r : regex) (s x : jsstring)
    (o : list jsstring) (g : option jsstring) (m : mstate) :
  many1 k s = x :: o ->
  head (run r (MState x g)) = Some m ->
  head (run (Cat (Many1 k) r) (MState s g)) = Some m.
Proof.
  intros Hk Hr. cbn [run ahead group1]. rewrite Hk.
  cbn [map flat_map]. now apply head_app_Some.
Qed.

Lemma run_capture_cat (k : cclass) (r : regex) (s x : jsstring)
    (o : list jsstring) (g : option jsstring) (m : mstate) :
  many1 k s = x :: o ->
  head (run r (MState x (Some (take (length s - length x) s)))) = Some m ->
  head (run (Cat (Capture (Many1 k)) r) (MState s g)) = Some m.
Proof.
  intros Hk Hr. cbn [run ahead group1]. rewrite Hk.
  cbn [map flat_map ahead]. now apply head_app_Some.
Qed.

Lemma exec_wrapper (n : nat) (arg post : jsstring) :
  arg <> [] -> unit_of "}" ∉ arg ->
  exec title_pattern (wrapper n arg ++ post) = Some (MState post (Some arg)).
Proof.
  intros Hne Hfree.
  assert (Hb : exists o, many1 (Only (unit_of "]"))
                 (replicate (S n) (unit_of "]")
                  ++ unit_of "{" :: arg ++ unit_of "}" :: post)
               = (unit_of "{" :: arg ++ unit_of "}" :: post) :: o).
  { apply many1_longest; [discriminate | | reflexivity].
    apply Forall_replicate. reflexivity. }
  assert (Ha : exists o, many1 (AnyBut (unit_of "}")) (arg ++ unit_of "}" :: post)
               = (unit_of "}" :: post) :: o).
  { apply many1_longest; [assumption | | reflexivity].
    apply Forall_forall. intros x Hx. unfold in_class.
    apply negb_true_iff, N.eqb_neq. intros ->. contradiction. }
  destruct Hb as [ob Hb], Ha as [oa Ha].
  assert (Hw : wrapper n arg ++ post
               = marker :: unit_of "a" :: unit_of "-" :: unit_of "z"
                 :: unit_of "A" :: unit_of "-" :: unit_of "Z"
                 :: replicate (S n) (unit_of "]")
                    ++ unit_of "{" :: arg ++ unit_of "}" :: post).
  { unfold wrapper. change (lit "{") with [unit_of "{"].
    change (lit "}") with [unit_of "}"].
    change (lit "a-zA-Z") with (map unit_of ["a";"-";"z";"A";"-";"Z"]%char).
    cbn [map app]. do 7 f_equal.
    rewrite <- app_assoc. cbn [app]. now rewrite <- app_assoc. }
  rewrite Hw. unfold exec, title_pattern, chr.
  rewrite !run_chr_cat.
  eapply run_many1_cat; [exact Hb|].
  rewrite run_chr_cat.
  eapply run_capture_cat; [exact Ha|].
  cbn [run ahead group1 in_class]. rewrite N.eqb_refl. cbn [head].
  f_equal. f_equal. f_equal.
  rewrite length_app. cbn [length].
  replace (length arg + S (length post) - S (length post))%nat
    with (length arg) by lia.
  apply take_app_length.
Qed.

(** Where the pattern does match, the match is replaced by its argument and
    the scan goes on behind it. *)
Lemma clean_title_wrapper (pre : jsstring) (n : nat) (arg post : jsstring) :
  marker ∉ pre -> arg <> [] -> unit_of "}" ∉ arg ->
  clean_title (pre ++ wrapper n arg ++ post) = pre ++ arg ++ clean_title post.
Proof.
  intros Hpre Hne Hfree. unfold clean_title, replace_all.
  induction pre as [|c pre IH].
  - pose proof (exec_wrapper n arg post Hne Hfree) as He.
    set (tl := lit "a-zA-Z" ++ replicate (S n) (unit_of "]")
               ++ lit "{" ++ arg ++ lit "}").
    change (wrapper n arg ++ post) with (marker :: tl ++ post) in He |- *.
    cbn [app replace_from]. rewrite He. cbn [dollar1 group1 ahead default].
    f_equal.
    replace (length (marker :: tl ++ post) - length post - 1)%nat
      with (length tl) by (cbn [length]; rewrite length_app; lia).
    apply replace_skip.
  - apply not_elem_of_cons in Hpre as [Hc Hpre].
    cbn [app replace_from]. rewrite exec_needs_marker by congruence.
    now rewrite IH.
Qed.

End TitlePattern.

(** A title that does not contain the character U+E001 is displayed as it
    is. *)
Lemma title_without_marker_is_displayed_unchanged {B : Browser}
    (node : SectionNode) (number : jsstring) :
  marker ∉ title node ->
  titleText (renderNode node number) = title node.
Proof.
  intros Hm. destruct node as [lvl ttl cnt chn]. cbn [titleText renderNode title] in *.
  now apply replace_no_marker.
Qed.

(** C2.  The pattern of line 140 does not strip a one-argument wrapper.
    The title ["emph{Intro}"] of the claim is displayed as it is, and so is
    its LaTeX form, with a backslash in front.  What the pattern matches
    instead is the character U+E001 followed by the text ["a-zA-Z"], one or
    more closing brackets and a braced argument; of such a match it keeps
    the argument, as the claim says of a wrapper. *)
Theorem wrapper_is_displayed_unstripped {B : Browser}
    (lvl : Z) (cnt number : jsstring) (chn : list SectionNode) :
  titleText (renderNode (Node lvl (lit "emph{Intro}") cnt chn) number)
  = lit "emph{Intro}" /\
  titleText (renderNode (Node lvl (lit "\emph{Intro}") cnt chn) number)
  = lit "\emph{Intro}" /\
  titleText
    (renderNode (Node lvl (marker :: lit "a-zA-Z]{Intro}") cnt chn) number)
  = lit "Intro".
Proof.
  cbn [titleText renderNode]. repeat split; vm_compute; reflexivity.
Qed.

(** ** Numbering *)

Section Numbering.
Context {B : Browser}.

Lemma nested_renderNode (n : SectionNode) (number : jsstring) :
  nested (renderNode n number) = renderChildren number O (children n).
Proof.
  destruct n as [lvl ttl cnt chn]. cbn [nested renderNode children].
  generalize O. induction chn as [|c chn IH]; intros k; [reflexivity|].
  cbn [renderChildren]. now rewrite <- IH.
Qed.

Lemma numberText_renderNode (n : SectionNode) (number : jsstring) :
  numberText (renderNode n number)
  = if 0 <? level n then number ++ lit " " else [].
Proof. destruct n. reflexivity. Qed.

Lemma renderChildren_lookup (number : jsstring) (l : list SectionNode) :
  forall (k j : nat),
    renderChildren number k l !! j
    = (fun c => renderNode c (number ++ lit "." ++ ordinal (k + j)))
        <$> (l !! j).
Proof.
  induction l as [|c l IH]; intros k j; [now destruct j|].
  destruct j as [|j]; cbn [renderChildren lookup list_lookup fmap option_fmap option_map].
  - now rewrite Nat.add_0_r.
  - rewrite IH. now replace (S k + j)%nat with (k + S j)%nat by lia.
Qed.

Lemma renderTop_lookup (l : list SectionNode) :
  forall (k i : nat),
    renderTop k l !! i = (fun n => renderNode n (ordinal (k + i))) <$> (l !! i).
Proof.
  induction l as [|c l IH]; intros k i; [now destruct i|].
  destruct i as [|i]; cbn [renderTop lookup list_lookup fmap option_fmap option_map].
  - now rewrite Nat.add_0_r.
  - rewrite IH. now replace (S k + i)%nat with (k + S i)%nat by lia.
Qed.

Lemma block_at_children (p : path) :
  forall (l : list SectionNode) (number : jsstring) (n : SectionNode),
    node_at p l = Some n ->
    block_at p (renderChildren number O l)
    = Some (renderNode n (dotted_from number p)).
Proof.
  induction p as [|j p IH]; intros l number n Hn; [discriminate|].
  destruct p as [|j' p].
  - cbn [node_at block_at dotted_from] in *.
    rewrite renderChildren_lookup, Hn. reflexivity.
  - cbn [node_at] in Hn. destruct (l !! j) as [m|] eqn:Hm; [|discriminate].
    change (block_at (j :: j' :: p) (renderChildren number O l))
      with (match renderChildren number O l !! j with
            | Some b => block_at (j' :: p) (nested b)
            | None => None
            end).
    rewrite renderChildren_lookup, Hm. cbn [fmap option_fmap option_map].
    rewrite nested_renderNode. cbn [dotted_from]. now apply IH.
Qed.

Lemma block_at_top (p : path) (ns : list SectionNode) (n : SectionNode) :
  node_at p ns = Some n ->
  block_at p (renderTop O ns) = Some (renderNode n (dotted p)).
Proof.
  destruct p as [|i p]; [discriminate|]. intros Hn.
  destruct p as [|j p].
  - cbn [node_at block_at dotted dotted_from] in *.
    rewrite renderTop_lookup, Hn. reflexivity.
  - cbn [node_at] in Hn. destruct (ns !! i) as [m|] eqn:Hm; [|discriminate].
    change (block_at (i :: j :: p) (renderTop O ns))
      with (match renderTop O ns !! i with
            | Some b => block_at (j :: p) (nested b)
            | None => None
            end).
    rewrite renderTop_lookup, Hm. cbn [fmap option_fmap option_map].
    rewrite nested_renderNode. cbn [dotted]. now apply block_at_children.
Qed.

End Numbering.

(** C9.  On a non-empty tree [render] shows, at every position [p] of the
    tree, the block [renderNode] builds for the node there with the dotted
    number of [p] (["i"] at the top level, ["p.j"] for child [j] of the
    node numbered ["p"], counted from 1); the block shows that number,
    followed by a space, unless the node's level is 0, in which case it
    shows no number. *)
Theorem render_numbers_by_position {B : Browser}
    (w : World) (ns : list SectionNode) (p : path) (n : SectionNode) :
  nodes w = Some ns -> ns <> [] -> node_at p ns = Some n ->
  exists blocks,
    container (render w) = Sections blocks /\
    block_at p blocks = Some (renderNode n (dotted p)) /\
    (forall i, dotted [i] = decimal (N.of_nat (i + 1))) /\
    (forall i q j, dotted ((i :: q) ++ [j])
                   = dotted (i :: q) ++ lit "." ++ decimal (N.of_nat (j + 1))) /\
    (0 < level n ->
     numberText (renderNode n (dotted p)) = dotted p ++ lit " ") /\
    (level n = 0 -> numberText (renderNode n (dotted p)) = []).
Proof.
  intros Hw Hne Hn. exists (renderTop O ns). split; [|split; [|split; [|split; [|split]]]].
  - unfold render. rewrite Hw. destruct ns; [contradiction | reflexivity].
  - now apply block_at_top.
  - reflexivity.
  - intros i q j. cbn [app dotted]. generalize (ordinal i).
    induction q as [|k q IH]; intros s; [reflexivity | apply IH].
  - intros Hl. rewrite numberText_renderNode.
    now apply Z.ltb_lt in Hl as ->.
  - intros Hl. rewrite numberText_renderNode. now rewrite Hl.
Qed.

Lemma render_numbers_witness :
  exists blocks,
    container (render (set_nodes
      [Node 1 (lit "A") [] []; Node 1 (lit "B") [] [];
       Node 1 (lit "C") [] [Node 2 (lit "C1") [] []; Node 2 (lit "C2") [] []]]
      initial)) = Sections blocks /\
    (numberText <$> block_at [2; 1]%nat blocks) = Some (lit "3.2 ").
Proof.
  destruct (render_numbers_by_position
              (set_nodes
                 [Node 1 (lit "A") [] []; Node 1 (lit "B") [] [];
                  Node 1 (lit "C") [] [Node 2 (lit "C1") [] []; Node 2 (lit "C2") [] []]]
                 initial)
              [Node 1 (lit "A") [] []; Node 1 (lit "B") [] [];
               Node 1 (lit "C") [] [Node 2 (lit "C1") [] []; Node 2 (lit "C2") [] []]]
              [2; 1]%nat (Node 2 (lit "C2") [] [])
              eq_refl ltac:(discriminate) eq_refl)
    as (blocks & Hc & Hb & _).
  exists blocks. split; [exact Hc|]. rewrite Hb. reflexivity.
Defined.

(** ** Content regions *)

Section Regions.
Context {B : Browser}.

Lemma forEach_block_unfold f k lvl ex num ttl gl r nd bs :
  forEach_block f k (MkBlock lvl ex num ttl gl r nd bs)
  = MkBlock lvl ex num ttl gl (f k r) nd (forEach_blocks f (S k) bs).
Proof.
  cbn [forEach_block]. f_equal. generalize (S k).
  induction bs as [|x bs IH]; intros j; [reflexivity|].
  cbn [forEach_blocks]. now rewrite <- IH.
Qed.

Lemma regions_forEach_block (f : nat -> Region -> Region) (b : Block) :
  forall k, block_regions (forEach_block f k b)
            = imap (fun i => f (k + i)%nat) (block_regions b).
Proof.
  induction b as [lvl ex num ttl gl r nd bs IH] using Block_nested_ind.
  intros k. rewrite forEach_block_unfold. cbn [block_regions imap].
  rewrite Nat.add_0_r. f_equal.
  assert (H : forall j, flat_map block_regions (forEach_blocks f j bs)
                        = imap (fun i => f (j + i)%nat) (flat_map block_regions bs)).
  { induction IH as [|x l Hx _ IHl]; intros j; [reflexivity|].
    cbn [forEach_blocks flat_map]. rewrite Hx, IHl, imap_app. f_equal.
    apply imap_ext. intros i e _. f_equal. lia. }
  rewrite H. apply imap_ext. intros i e _. cbn. f_equal. lia.
Qed.

Lemma regions_forEach_blocks (f : nat -> Region -> Region) (bs : list Block) :
  forall k, flat_map block_regions (forEach_blocks f k bs)
            = imap (fun i => f (k + i)%nat) (flat_map block_regions bs).
Proof.
  induction bs as [|x bs IH]; intros k; [reflexivity|].
  cbn [forEach_blocks flat_map].
  rewrite regions_forEach_block, IH, imap_app. f_equal.
  apply imap_ext. intros i e _. f_equal. lia.
Qed.

Lemma regions_forEach_region (f : nat -> Region -> Region) (v : View) :
  regions (forEach_region f v) = imap f (regions v).
Proof.
  destruct v as [| |bs]; try reflexivity.
  cbn [forEach_region regions]. now rewrite regions_forEach_blocks.
Qed.

Lemma innerHTML_imap_set (g : nat -> jsstring) (rs : list Region) :
  map innerHTML (imap (fun i e => with_markup (g i) e) rs)
  = map g (seq 0 (length rs)).
Proof.
  revert g. induction rs as [|e rs IH]; intros g; [reflexivity|].
  cbn [imap map length seq]. f_equal.
  rewrite <- seq_shift, map_map. apply (IH (fun i => g (S i))).
Qed.

Lemma innerHTML_imap_assign (g : nat -> jsstring) (rs : list Region) :
  map innerHTML (imap (fun i e => set_innerHTML (g i) e) rs)
  = map dom (map g (seq 0 (length rs))).
Proof.
  rewrite map_map. exact (innerHTML_imap_set (fun i => dom (g i)) rs).
Qed.

Lemma innerHTML_imap_typeset (rs : list Region) :
  map innerHTML (imap (fun _ e => typeset_region e) rs)
  = map typeset (map innerHTML rs).
Proof.
  induction rs as [|e rs IH]; [reflexivity|].
  cbn [imap map]. f_equal. exact IH.
Qed.



End Regions.

(** ** The history log *)

Section HistoryLog.
Context {B : Browser}.

Lemma eqb_eq (s t : jsstring) : JsString.eqb s t = true <-> s = t.
Proof.
  revert t. induction s as [|c s IH]; intros [|d t]; cbn [JsString.eqb];
    try (split; [discriminate | discriminate]); [tauto|].
  rewrite andb_true_iff, N.eqb_eq, IH. split.
  - now intros [-> ->].
  - intros H. injection H as -> ->. tauto.
Qed.

Lemma snapshot_eqb_eq (a b : Snapshot) : snapshot_eqb a b = true <-> a = b.
Proof.
  revert b. induction a as [|s a IH]; intros [|t b]; cbn [snapshot_eqb];
    try (split; [discriminate | discriminate]); [tauto|].
  rewrite andb_true_iff, eqb_eq, IH. split.
  - now intros [-> ->].
  - intros H. injection H as -> ->. tauto.
Qed.

Lemma pushHistory_cases (w : World) :
  (0 <= historyIndex w /\ entry w = Some (contents w) /\ pushHistory w = w)
  \/ (~ (0 <= historyIndex w /\ entry w = Some (contents w))
      /\ pushHistory w = pushed w).
Proof.
  unfold pushHistory, pushed, entry, contents.
  destruct (Z.leb_spec 0 (historyIndex w)) as [Hi|Hi]; cbn [andb].
  - destruct (js_index (history w) (historyIndex w)) as [e|] eqn:He;
      cbn [same_json].
    + destruct (snapshot_eqb _ e) eqn:Hs.
      * apply snapshot_eqb_eq in Hs. subst e. now left.
      * right. split; [|reflexivity]. intros (_ & H). injection H as H. subst e.
        assert (Ht : snapshot_eqb (map innerHTML (regions (container w)))
                                  (map innerHTML (regions (container w))) = true)
          by now apply snapshot_eqb_eq.
        congruence.
    + right. split; [|reflexivity]. now intros (_ & H).
  - right. split; [|reflexivity]. intros (H & _). lia.
Qed.

Lemma js_index_Some {A : Type} (l : list A) (i : Z) :
  0 <= i < Z.of_nat (length l) -> exists x, js_index l i = Some x.
Proof.
  intros Hi. unfold js_index.
  destruct (Z.ltb_spec i 0) as [?|_]; [lia|].
  destruct (lookup_lt_is_Some_2 l (Z.to_nat i)) as [x Hx]; [lia|]. eauto.
Qed.

Lemma slice0_in_range {A : Type} (l : list A) (e : Z) :
  0 <= e <= Z.of_nat (length l) ->
  slice0 l e = take (Z.to_nat e) l /\ length (slice0 l e) = Z.to_nat e.
Proof.
  intros He. unfold slice0. destruct (Z.ltb_spec e 0) as [?|_]; [lia|].
  split; [reflexivity|]. rewrite length_take. lia.
Qed.

Lemma log_ok_range (w : World) :
  log_ok w -> -1 <= historyIndex w <= Z.of_nat (length (history w)) - 1.
Proof.
  intros [Hiff Hne]. destruct (history w) as [|e h] eqn:Hh.
  - assert (historyIndex w = -1) by now apply Hiff. cbn [length]. lia.
  - assert (0 <= historyIndex w <= Z.of_nat (length (e :: h)) - 1)
      by now apply Hne.
    lia.
Qed.

Lemma log_ok_intro (w : World) :
  history w <> [] ->
  0 <= historyIndex w <= Z.of_nat (length (history w)) - 1 ->
  log_ok w.
Proof.
  intros Hne Hi. split; [|tauto]. split; [lia | contradiction].
Qed.

Lemma log_ok_pushed (w : World) : log_ok w -> log_ok (pushed w).
Proof.
  intros Hok. pose proof (log_ok_range w Hok) as Hr.
  destruct (slice0_in_range (history w) (historyIndex w + 1)) as [_ Hl]; [lia|].
  apply log_ok_intro; cbn.
  - intros H. now apply app_eq_nil in H as [_ ?].
  - rewrite length_app, Hl. cbn [length]. lia.
Qed.

Lemma entry_pushed (w : World) :
  log_ok w -> entry (pushed w) = Some (contents w).
Proof.
  intros Hok. pose proof (log_ok_range w Hok) as Hr.
  destruct (slice0_in_range (history w) (historyIndex w + 1)) as [_ Hl]; [lia|].
  unfold entry, js_index. cbn.
  destruct (Z.ltb_spec (historyIndex w + 1) 0) as [?|_]; [lia|].
  rewrite lookup_app_r by lia.
  now replace (Z.to_nat (historyIndex w + 1) - length _)%nat with O by lia.
Qed.

Lemma contents_restore (snapshot : Snapshot) (w : World) :
  contents
    (after_restore
       (set_container
          (forEach_region
             (fun i e => set_innerHTML (entry_or_empty snapshot i) e)
             (container w)) w))
  = map (reads_back w) (restored snapshot (length (contents w))).
Proof.
  unfold contents, after_restore, restored, reads_back.
  cbn [rendering set_container]. destruct (rendering w);
    cbn [container updateButtonStates set_buttons add_call set_container].
  - rewrite !regions_forEach_region, innerHTML_imap_typeset,
      innerHTML_imap_assign, length_map, !map_map. reflexivity.
  - rewrite regions_forEach_region, innerHTML_imap_assign, length_map.
    reflexivity.
Qed.

Lemma restoreHistory_Some (w : World) (snapshot : Snapshot) :
  entry w = Some snapshot ->
  exists w', restoreHistory w = Returned w' /\
             history w' = history w /\ historyIndex w' = historyIndex w /\
             contents w'
             = map (reads_back w) (restored snapshot (length (contents w))) /\
             timers w' = timers w /\ nextTimer w' = nextTimer w /\
             debounceTimer w' = debounceTimer w /\ clock w' = clock w /\
             rendering w' = rendering w.
Proof.
  intros He. unfold restoreHistory. unfold entry in He. rewrite He.
  eexists. split; [reflexivity|].
  rewrite contents_restore. unfold after_restore.
  cbn. destruct (rendering w) eqn:Hr; cbn; rewrite ?Hr; tauto.
Qed.

Lemma showStatus_keeps (message : jsstring) (duration : N) (w : World) :
  history (showStatus message duration w) = history w /\
  historyIndex (showStatus message duration w) = historyIndex w /\
  container (showStatus message duration w) = container w /\
  contents (showStatus message duration w) = contents w /\
  debounceTimer (showStatus message duration w) = debounceTimer w /\
  nodes (showStatus message duration w) = nodes w /\
  statusText (showStatus message duration w) = message.
Proof. unfold contents. cbn. tauto. Qed.

Lemma undo_steps_back (w : World) :
  log_ok w -> 0 < historyIndex w ->
  exists w' snapshot,
    undo w = Returned w' /\
    js_index (history w) (historyIndex w - 1) = Some snapshot /\
    history w' = history w /\ historyIndex w' = historyIndex w - 1 /\
    contents w'
    = map (reads_back w) (restored snapshot (length (contents w))).
Proof.
  intros Hok Hpos. pose proof (log_ok_range w Hok) as Hr.
  destruct (js_index_Some (history w) (historyIndex w - 1)) as [s Hs]; [lia|].
  destruct (restoreHistory_Some (set_historyIndex (historyIndex w - 1) w) s Hs)
    as (w1 & Hres & Hh & Hi & Hc & _).
  unfold undo. destruct (Z.ltb_spec 0 (historyIndex w)) as [_|?]; [|lia].
  rewrite Hres. eexists _, s. split; [reflexivity|].
  destruct (showStatus_keeps (lit "Undo successful") 3000 w1)
    as (-> & -> & _ & -> & _).
  rewrite Hh, Hi, Hc. cbn. tauto.
Qed.

Lemma redo_steps_forward (w : World) :
  log_ok w -> historyIndex w < Z.of_nat (length (history w)) - 1 ->
  exists w' snapshot,
    redo w = Returned w' /\
    js_index (history w) (historyIndex w + 1) = Some snapshot /\
    history w' = history w /\ historyIndex w' = historyIndex w + 1 /\
    contents w'
    = map (reads_back w) (restored snapshot (length (contents w))).
Proof.
  intros Hok Hlt. pose proof (log_ok_range w Hok) as Hr.
  destruct (js_index_Some (history w) (historyIndex w + 1)) as [s Hs]; [lia|].
  destruct (restoreHistory_Some (set_historyIndex (historyIndex w + 1) w) s Hs)
    as (w1 & Hres & Hh & Hi & Hc & _).
  unfold redo.
  destruct (Z.ltb_spec (historyIndex w) (Z.of_nat (length (history w)) - 1))
    as [_|?]; [|lia].
  rewrite Hres. eexists _, s. split; [reflexivity|].
  destruct (showStatus_keeps (lit "Redo successful") 3000 w1)
    as (-> & -> & _ & -> & _).
  rewrite Hh, Hi, Hc. cbn. tauto.
Qed.

Lemma log_ok_same_log (w w' : World) :
  log_ok w -> history w' = history w ->
  0 <= historyIndex w' <= Z.of_nat (length (history w)) - 1 ->
  log_ok w'.
Proof.
  intros Hok Hh Hi. apply log_ok_intro; rewrite Hh; [|assumption].
  intros Hnil. rewrite Hnil in Hi. cbn in Hi. lia.
Qed.

End HistoryLog.

Lemma log_ok_pushHistory (w : World) : log_ok w -> log_ok (pushHistory w).
Proof.
  intros Hok.
  destruct (pushHistory_cases w) as [(_ & _ & ->)|(_ & ->)];
    [assumption | now apply log_ok_pushed].
Qed.

Lemma log_ok_initial : log_ok initial.
Proof. split; [split; reflexivity | intros H; now contradiction H]. Qed.

(** C5.  [pushHistory], [undo] and [redo] each return and keep the
    invariant of the log: the cursor is [-1] exactly when there is no entry,
    and [0 <= cursor <= length - 1] whenever there is one. *)
Theorem history_operations_keep_log_ok {B : Browser} (w : World) :
  log_ok w ->
  log_ok (pushHistory w) /\
  (exists w', undo w = Returned w' /\ log_ok w') /\
  (exists w', redo w = Returned w' /\ log_ok w').
Proof.
  intros Hok. pose proof (log_ok_range w Hok) as Hr. split; [|split].
  - now apply log_ok_pushHistory.
  - destruct (Z.ltb_spec 0 (historyIndex w)) as [Hpos|Hle].
    + destruct (undo_steps_back w Hok Hpos) as (w' & s & Hu & _ & Hh & Hi & _).
      exists w'. split; [exact Hu|].
      apply (log_ok_same_log w); [assumption | assumption | lia].
    + exists w. split; [|assumption]. unfold undo.
      now destruct (Z.ltb_spec 0 (historyIndex w)) as [?|_]; [lia|].
  - destruct (Z.ltb_spec (historyIndex w) (Z.of_nat (length (history w)) - 1))
      as [Hlt|Hge].
    + destruct (redo_steps_forward w Hok Hlt) as (w' & s & Hu & _ & Hh & Hi & _).
      exists w'. split; [exact Hu|].
      apply (log_ok_same_log w); [assumption | assumption | lia].
    + exists w. split; [|assumption]. unfold redo.
      now destruct (Z.ltb_spec (historyIndex w)
                      (Z.of_nat (length (history w)) - 1)) as [?|_]; [lia|].
Qed.

Lemma history_operations_keep_log_ok_witness :
  log_ok initial /\
  log_ok (pushHistory initial) /\
  (exists w', undo initial = Returned w' /\ log_ok w') /\
  (exists w', redo initial = Returned w' /\ log_ok w').
Proof.
  split; [exact log_ok_initial|].
  exact (history_operations_keep_log_ok initial log_ok_initial).
Defined.

(** C6.  A push whose snapshot equals the entry at the cursor returns the
    state as it is; and, on a log that satisfies its invariant, a second
    [pushHistory] with the content unchanged changes nothing: entries, their
    number and the cursor stay as the first push left them. *)
Theorem pushHistory_is_idempotent (w : World) :
  (0 <= historyIndex w -> entry w = Some (contents w) -> pushHistory w = w) /\
  (log_ok w ->
   pushHistory (pushHistory w) = pushHistory w /\
   history (pushHistory (pushHistory w)) = history (pushHistory w) /\
   length (history (pushHistory (pushHistory w)))
   = length (history (pushHistory w)) /\
   historyIndex (pushHistory (pushHistory w)) = historyIndex (pushHistory w)).
Proof.
  split.
  - intros Hi He.
    destruct (pushHistory_cases w) as [(_ & _ & H)|(Hn & _)]; tauto.
  - intros Hok.
    assert (Hsame : pushHistory (pushHistory w) = pushHistory w).
    { destruct (pushHistory_cases w) as [(_ & _ & Heq)|(_ & ->)].
      - now rewrite !Heq.
      - pose proof (entry_pushed w Hok) as He.
        pose proof (log_ok_range w Hok) as Hr.
        destruct (pushHistory_cases (pushed w)) as [(_ & _ & H)|(Hn & _)];
          [exact H|].
        exfalso. apply Hn. split; [cbn; lia | exact He]. }
    now rewrite Hsame.
Qed.

Lemma pushHistory_is_idempotent_witness :
  log_ok (loadFile one_section (text_file (lit "a")) initial) /\
  pushHistory (pushHistory (loadFile one_section (text_file (lit "a")) initial))
  = pushHistory (loadFile one_section (text_file (lit "a")) initial).
Proof.
  assert (Hok : log_ok (loadFile one_section (text_file (lit "a")) initial)).
  { apply log_ok_intro; [discriminate | vm_compute; split; discriminate]. }
  split; [exact Hok|].
  exact (proj1 (proj2 (pushHistory_is_idempotent
                         (loadFile one_section (text_file (lit "a")) initial))
                  Hok)).
Defined.



Section RoundTrip.
Context {B : Browser}.

Lemma length_restored (snapshot : Snapshot) (n : nat) :
  length (restored snapshot n) = n.
Proof. unfold restored. now rewrite length_map, length_seq. Qed.

Lemma restored_self (snapshot : Snapshot) :
  restored snapshot (length snapshot) = snapshot.
Proof.
  unfold restored. induction snapshot as [|s l IH]; [reflexivity|].
  cbn [length seq map]. f_equal. rewrite <- seq_shift, map_map.
  exact IH.
Qed.

(** Right after a push the regions hold the entry at the cursor. *)
Lemma pushHistory_in_sync (w : World) :
  log_ok w ->
  entry (pushHistory w) = Some (contents (pushHistory w)).
Proof.
  intros Hok.
  destruct (pushHistory_cases w) as [(_ & He & ->)|(_ & ->)];
    [exact He | now rewrite entry_pushed].
Qed.




Lemma reads_back_mode (w w' : World) :
  rendering w' = rendering w -> reads_back w' = reads_back w.
Proof. unfold reads_back. now intros ->. Qed.



End RoundTrip.



(** ** Loading *)

Section Loading.
Context {B : Browser}.

Lemma loadFile_parsed (parseLatex : Parser) (file : File) (text : jsstring)
    (ns : list SectionNode) (w : World) :
  accepted file -> fileText file = Some text ->
  (N.of_nat (length text) <= 1000000)%N ->
  parsed_nodes parseLatex text = Some ns ->
  loadFile parseLatex file w
  = showLoading false
      (showStatus (lit "File loaded successfully") 3000
         (pushHistory (render (set_nodes ns (showLoading true w))))).
Proof.
  intros Hacc Htext Hsize Hparse. unfold loadFile.
  assert (Hgate : negb (includes (lit "text/") (fileType file))
                  && negb (endsWith (lit ".tex") (fileName file)) = false).
  { destruct Hacc as [-> | ->]; [reflexivity | apply andb_false_r]. }
  rewrite Hgate. unfold try_load. rewrite Htext.
  destruct (N.ltb_spec 1000000 (N.of_nat (length text))) as [?|_]; [lia|].
  unfold parse_and_show. now rewrite Hparse.
Qed.

Lemma loadFile_parser_throws (parse : jsstring -> option (list SectionNode))
    (file : File) (text : jsstring) (w : World) :
  accepted file -> fileText file = Some text ->
  (N.of_nat (length text) <= 1000000)%N ->
  parse text = None ->
  loadFile (ParserFn parse) file w
  = showLoading false
      (showStatus
         (lit "Error loading file. Please check console for details.") 3000
         (add_call ConsoleError (showLoading true w))).
Proof.
  intros Hacc Htext Hsize Hparse. unfold loadFile.
  assert (Hgate : negb (includes (lit "text/") (fileType file))
                  && negb (endsWith (lit ".tex") (fileName file)) = false).
  { destruct Hacc as [-> | ->]; [reflexivity | apply andb_false_r]. }
  rewrite Hgate. unfold try_load. rewrite Htext.
  destruct (N.ltb_spec 1000000 (N.of_nat (length text))) as [?|_]; [lia|].
  unfold parse_and_show, parsed_nodes. now rewrite Hparse.
Qed.


Lemma log_of_render (ns : list SectionNode) (w : World) :
  history (render (set_nodes ns (showLoading true w))) = history w /\
  historyIndex (render (set_nodes ns (showLoading true w))) = historyIndex w.
Proof. unfold render. cbn [nodes set_nodes]. destruct ns; cbn; tauto. Qed.

End Loading.




(** C3, as amended.  With no [parseLatex] function, [loadFile] takes the
    node list to be empty, shows the "No Sections Found" screen and reports
    success.  When [parseLatex] throws, the [catch] clause logs the error
    and shows the "Error loading file" status; nodes, page content and
    history stay as they were before the load, and [loadFile] itself
    completes. *)
Theorem load_without_or_with_throwing_parser {B : Browser}
    (file : File) (text : jsstring) (w : World) :
  accepted file -> fileText file = Some text ->
  (N.of_nat (length text) <= 1000000)%N ->
  (nodes (loadFile NoParser file w) = Some [] /\
   container (loadFile NoParser file w) = NoSections /\
   statusText (loadFile NoParser file w) = lit "File loaded successfully" /\
   calls (loadFile NoParser file w) = calls w /\
   loadingActive (loadFile NoParser file w) = false) /\
  (forall parse, parse text = None ->
     nodes (loadFile (ParserFn parse) file w) = nodes w /\
     container (loadFile (ParserFn parse) file w) = container w /\
     history (loadFile (ParserFn parse) file w) = history w /\
     historyIndex (loadFile (ParserFn parse) file w) = historyIndex w /\
     statusText (loadFile (ParserFn parse) file w)
     = lit "Error loading file. Please check console for details." /\
     calls (loadFile (ParserFn parse) file w) = calls w ++ [ConsoleError] /\
     loadingActive (loadFile (ParserFn parse) file w) = false).
Proof.
  intros Hacc Htext Hsize. split.
  - rewrite (loadFile_parsed NoParser file text [] w Hacc Htext Hsize eq_refl).
    set (w1 := render (set_nodes [] (showLoading true w))).
    assert (Hkeep : nodes (pushHistory w1) = Some [] /\
                    container (pushHistory w1) = NoSections /\
                    calls (pushHistory w1) = calls w).
    { destruct (pushHistory_cases w1) as [(_ & _ & ->)|(_ & ->)]; cbn; tauto. }
    destruct Hkeep as (Hn & Hc & Hcalls). cbn. tauto.
  - intros parse Hparse.
    rewrite (loadFile_parser_throws parse file text w Hacc Htext Hsize Hparse).
    cbn. tauto.
Qed.

Lemma load_without_or_with_throwing_parser_witness :
  container (loadFile NoParser (text_file (lit "a")) initial) = NoSections /\
  statusText (loadFile throwing (text_file (lit "a")) initial)
  = lit "Error loading file. Please check console for details.".
Proof.
  assert (Hacc : accepted (text_file (lit "a"))) by (left; reflexivity).
  assert (Hsize : (N.of_nat (length (lit "a")) <= 1000000)%N)
    by (vm_compute; discriminate).
  destruct (load_without_or_with_throwing_parser
              (text_file (lit "a")) (lit "a") initial Hacc eq_refl Hsize)
    as [(_ & Hc & _) Hthrow].
  split; [exact Hc|].
  destruct (Hthrow (fun _ => None) eq_refl) as (_ & _ & _ & _ & Hs & _).
  exact Hs.
Defined.

(** C3, as stated, fails: when the parser throws, the page keeps the
    sections of the document loaded before, not the "No Sections Found"
    screen, the node list is not emptied, and the error is reported in the
    status message. *)
Lemma throwing_parser_does_not_empty_the_page :
  let w1 := loadFile one_section (text_file (lit "a")) initial in
  let w2 := loadFile throwing (text_file (lit "b")) w1 in
  container w2 = container w1 /\
  container w2 <> NoSections /\
  nodes w2 <> Some [] /\
  statusText w2 = lit "Error loading file. Please check console for details.".
Proof. vm_compute. repeat split; discriminate. Qed.

(** ** Edits, undo and truncation *)

Section Truncation.
Context {B : Browser}.

Lemma contents_type_all (snapshot : Snapshot) (w : World) :
  length snapshot = length (contents w) ->
  contents (set_container (type_all snapshot (container w)) w) = snapshot.
Proof.
  intros Hl. unfold contents, type_all. cbn [container set_container].
  rewrite regions_forEach_region, innerHTML_imap_set.
  unfold contents in Hl. rewrite length_map in Hl. rewrite <- Hl.
  apply restored_self.
Qed.

(** An edit to a snapshot other than the entry at the cursor cuts the log
    behind the cursor and appends the snapshot. *)
Lemma edit_appends (snapshot : Snapshot) (w : World) :
  log_ok w -> length snapshot = length (contents w) ->
  entry w <> Some snapshot ->
  history (edit snapshot w)
  = take (Z.to_nat (historyIndex w + 1)) (history w) ++ [snapshot] /\
  historyIndex (edit snapshot w) = historyIndex w + 1 /\
  contents (edit snapshot w) = snapshot /\
  log_ok (edit snapshot w).
Proof.
  intros Hok Hl Hne. pose proof (log_ok_range w Hok) as Hr.
  pose proof (contents_type_all snapshot w Hl) as Hc.
  unfold edit. set (w1 := set_container _ w) in *.
  assert (Hok1 : log_ok w1) by exact Hok.
  destruct (slice0_in_range (history w) (historyIndex w + 1)) as [Hs _]; [lia|].
  destruct (pushHistory_cases w1) as [(_ & He & _)|(_ & ->)].
  - rewrite Hc in He. contradiction.
  - split; [|split; [reflexivity|split; [exact Hc | now apply log_ok_pushed]]].
    unfold pushed. cbn [history updateButtonStates set_buttons
                        set_historyIndex set_history].
    rewrite Hc. change (history w1) with (history w).
    change (historyIndex w1) with (historyIndex w). now rewrite Hs.
Qed.

(** The log after edits that each differ from the entry before them. *)
Lemma edits_extend (snapshots : list Snapshot) :
  forall (w : World) (log : list Snapshot) (n : nat),
    history w = log -> log <> [] ->
    historyIndex w = Z.of_nat (length log) - 1 ->
    length (contents w) = n ->
    Forall (fun s => length s = n) snapshots ->
    NoDup (log ++ snapshots) ->
    history (edits snapshots w) = log ++ snapshots /\
    historyIndex (edits snapshots w) = Z.of_nat (length (log ++ snapshots)) - 1 /\
    length (contents (edits snapshots w)) = n.
Proof.
  induction snapshots as [|s l IH]; intros w log n Hh Hne Hi Hn Hall Hnd.
  - rewrite app_nil_r. cbn [edits foldl]. tauto.
  - apply Forall_cons in Hall as [Hs Hall].
    assert (Hok : log_ok w).
    { apply log_ok_intro; rewrite Hh; [assumption|].
      destruct log; [contradiction | cbn [length] in *; lia]. }
    assert (Hnew : entry w <> Some s).
    { intros He. unfold entry, js_index in He.
      destruct (historyIndex w <? 0); [discriminate|].
      apply list_elem_of_lookup_2 in He. rewrite Hh in He.
      apply NoDup_app in Hnd as (_ & Hdis & _).
      apply (Hdis s He). left. }
    destruct (edit_appends s w Hok) as (Hh1 & Hi1 & Hc1 & _);
      [congruence | assumption |].
    assert (Hfull : take (Z.to_nat (historyIndex w + 1)) (history w) = log).
    { rewrite Hh, Hi. apply take_ge. lia. }
    rewrite Hfull in Hh1.
    change (edits (s :: l) w) with (edits l (edit s w)).
    destruct (IH (edit s w) (log ++ [s]) n) as (H1 & H2 & H3).
    + exact Hh1.
    + intros H. now apply app_eq_nil in H as [_ ?].
    + rewrite Hi1, Hi, length_app. cbn [length]. lia.
    + now rewrite Hc1.
    + exact Hall.
    + now rewrite <- app_assoc.
    + rewrite <- app_assoc in H1, H2. cbn [app] in H1, H2. tauto.
Qed.

Lemma undos_step_back (k : nat) :
  forall (w : World),
    log_ok w -> Z.of_nat k <= historyIndex w ->
    exists w',
      undos k w = Returned w' /\ history w' = history w /\
      historyIndex w' = historyIndex w - Z.of_nat k /\
      length (contents w') = length (contents w) /\ log_ok w'.
Proof.
  induction k as [|k IH]; intros w Hok Hk.
  - exists w. cbn [undos]. rewrite Z.sub_0_r. tauto.
  - pose proof (log_ok_range w Hok) as Hr.
    destruct (undo_steps_back w Hok) as (w1 & s & Hu & _ & Hh & Hi & Hc); [lia|].
    assert (Hok1 : log_ok w1)
      by (apply (log_ok_same_log w); [assumption | assumption | lia]).
    destruct (IH w1 Hok1) as (w' & Hus & Hh' & Hi' & Hc' & Hok'); [lia|].
    exists w'. cbn [undos]. rewrite Hu, Hus, Hh', Hi', Hc', Hh, Hi, Hc.
    rewrite length_map, length_restored.
    split; [reflexivity|]. split; [reflexivity|]. split; [lia | tauto].
Qed.

End Truncation.

(** C4, as amended.  From a freshly loaded document (one entry, cursor 0),
    after [N] edits whose snapshots are pairwise distinct and distinct from
    the loaded one, [k <= N] calls of [undo] and one further distinct edit,
    the history holds [(N - k) + 2] entries: the initial snapshot, the first
    [N - k] edits and the new edit.  The cursor is on the new edit, every
    entry that could be redone is gone, and [redo] does nothing. *)
Theorem edit_after_undo_truncates_the_branch {B : Browser}
    (w0 : World) (snapshots : list Snapshot) (new : Snapshot) (k : nat) :
  history w0 = [contents w0] -> historyIndex w0 = 0 ->
  Forall (fun s => length s = length (contents w0)) (snapshots ++ [new]) ->
  NoDup (contents w0 :: snapshots ++ [new]) ->
  (k <= length snapshots)%nat ->
  exists w1,
    undos k (edits snapshots w0) = Returned w1 /\
    history (edit new w1)
    = contents w0 :: take (length snapshots - k) snapshots ++ [new] /\
    Z.of_nat (length (history (edit new w1)))
    = (Z.of_nat (length snapshots) - Z.of_nat k) + 2 /\
    historyIndex (edit new w1)
    = (Z.of_nat (length snapshots) - Z.of_nat k) + 1 /\
    redo (edit new w1) = Returned (edit new w1).
Proof.
  intros Hh0 Hi0 Hall Hnd Hk.
  apply Forall_app in Hall as [Hall Hnew]. apply List.Forall_inv in Hnew.
  assert (Hnd' : NoDup ([contents w0] ++ snapshots)).
  { change (NoDup ((contents w0 :: snapshots) ++ [new])) in Hnd.
    now apply NoDup_app in Hnd as (? & _). }
  destruct (edits_extend snapshots w0 [contents w0] (length (contents w0))
              Hh0 ltac:(discriminate) Hi0 eq_refl Hall Hnd')
    as (Hh & Hi & Hc).
  set (w := edits snapshots w0) in *.
  assert (Hok : log_ok w).
  { apply log_ok_intro; rewrite Hh; [discriminate|].
    rewrite Hi. cbn [app length]. lia. }
  destruct (undos_step_back k w Hok) as (w1 & Hu & Hh1 & Hi1 & Hc1 & Hok1).
  { rewrite Hi, length_app. cbn [length]. lia. }
  exists w1. split; [exact Hu|].
  assert (Hidx : historyIndex w1 = Z.of_nat (length snapshots - k)).
  { rewrite Hi1, Hi, length_app. cbn [length]. lia. }
  assert (Hnew1 : entry w1 <> Some new).
  { intros He. unfold entry, js_index in He.
    destruct (historyIndex w1 <? 0); [discriminate|].
    apply list_elem_of_lookup_2 in He. rewrite Hh1, Hh in He.
    change (NoDup ((contents w0 :: snapshots) ++ [new])) in Hnd.
    apply NoDup_app in Hnd as (_ & Hdis & _).
    apply (Hdis new He). left. }
  assert (Hlen1 : length new = length (contents w1)) by now rewrite Hc1, Hc.
  destruct (edit_appends new w1 Hok1 Hlen1 Hnew1) as (Hh2 & Hi2 & Hc2 & Hok2).
  assert (Hlog : history (edit new w1)
                 = contents w0 :: take (length snapshots - k) snapshots ++ [new]).
  { rewrite Hh2, Hh1, Hh, Hidx.
    replace (Z.to_nat (Z.of_nat (length snapshots - k) + 1))
      with (S (length snapshots - k)) by lia.
    reflexivity. }
  split; [exact Hlog|].
  assert (Hlen : Z.of_nat (length (history (edit new w1)))
                 = Z.of_nat (length snapshots) - Z.of_nat k + 2).
  { rewrite Hlog. cbn [length]. rewrite length_app, length_take. cbn [length]. lia. }
  split; [exact Hlen|]. split; [lia|].
  unfold redo.
  destruct (Z.ltb_spec (historyIndex (edit new w1))
              (Z.of_nat (length (history (edit new w1))) - 1)) as [?|_];
    [lia | reflexivity].
Qed.

Lemma edit_after_undo_witness :
  exists w1,
    undos 1 (edits [[lit "ab"]; [lit "abc"]]
               (loadFile one_section (text_file (lit "a")) initial))
    = Returned w1 /\
    history (edit [lit "x"] w1) = [[lit "a"]; [lit "ab"]; [lit "x"]].
Proof.
  destruct (edit_after_undo_truncates_the_branch
              (loadFile one_section (text_file (lit "a")) initial)
              [[lit "ab"]; [lit "abc"]] [lit "x"] 1)
    as (w1 & Hu & Hh & _).
  - reflexivity.
  - reflexivity.
  - repeat constructor.
  - vm_compute. repeat constructor;
      rewrite ?list_elem_of_In; cbn; intuition discriminate.
  - cbn. lia.
  - exists w1. split; [exact Hu | exact Hh].
Defined.

(** C4, as stated, fails: one edit, one undo and one new edit on a freshly
    loaded document leave two entries, the initial snapshot and the new
    edit, where [(N - k) + 1] is one. *)
Lemma initial_snapshot_is_counted :
  exists w1,
    let w0 := loadFile one_section (text_file (lit "a")) initial in
    history w0 = [[lit "a"]] /\
    undos 1 (edits [[lit "ab"]] w0) = Returned w1 /\
    history (edit [lit "ax"] w1) = [[lit "a"]; [lit "ax"]] /\
    Z.of_nat (length (history (edit [lit "ax"] w1))) <> (1 - 1) + 1.
Proof.
  eexists. cbv zeta. split; [reflexivity|].
  split; [vm_compute; reflexivity|].
  split; [reflexivity | vm_compute; discriminate].
Qed.

(** ** Timers *)

Section Timers.

Lemma first_due_In (ts : list Timer) (t : Timer) :
  first_due ts = Some t -> In t ts.
Proof.
  revert t. induction ts as [|u ts IH]; intros t; [discriminate|].
  cbn [first_due]. destruct (first_due ts) as [v|].
  - destruct (due v <? due u)%N; intros H; injection H as <-;
      [right; now apply IH | now left].
  - intros H. injection H as <-. now left.
Qed.

Lemma first_due_least (ts : list Timer) (t : Timer) :
  first_due ts = Some t -> forall u, In u ts -> (due t <= due u)%N.
Proof.
  revert t. induction ts as [|x ts IH]; intros t; [discriminate|].
  cbn [first_due]. destruct (first_due ts) as [v|] eqn:Hv.
  - destruct (N.ltb_spec (due v) (due x)) as [Hlt|Hge];
      intros H u [<-|Hu]; injection H as <-; try lia.
    + now apply IH.
    + specialize (IH v eq_refl u Hu). lia.
  - intros H u [<-|Hu]; injection H as <-; [lia|].
    destruct ts; [contradiction | cbn [first_due] in Hv].
    destruct (first_due ts) as [v|]; [destruct (due v <? due t)%N|]; discriminate.
Qed.

Lemma first_due_None (ts : list Timer) : first_due ts = None -> ts = [].
Proof.
  destruct ts as [|u ts]; [reflexivity|]. cbn [first_due].
  destruct (first_due ts) as [v|]; [destruct (due v <? due u)%N|]; discriminate.
Qed.

Lemma filter_all {A : Type} (p : A -> bool) (l : list A) :
  (forall x, In x l -> p x = true) -> List.filter p l = l.
Proof.
  induction l as [|x l IH]; intros H; [reflexivity|]. cbn [List.filter].
  rewrite (H x) by now left. f_equal. apply IH. intros y Hy. apply H. now right.
Qed.

Lemma filter_none {A : Type} (p : A -> bool) (l : list A) :
  (forall x, In x l -> p x = false) -> List.filter p l = [].
Proof.
  induction l as [|x l IH]; intros H; [reflexivity|]. cbn [List.filter].
  rewrite (H x) by now left. apply IH. intros y Hy. apply H. now right.
Qed.

Lemma filter_absorb {A : Type} (p q : A -> bool) (l : list A) :
  (forall x, In x l -> q x = false -> p x = false) ->
  List.filter p (List.filter q l) = List.filter p l.
Proof.
  induction l as [|x l IH]; intros H; [reflexivity|]. cbn [List.filter].
  assert (IH' : List.filter p (List.filter q l) = List.filter p l)
    by (apply IH; intros y Hy; apply H; now right).
  destruct (q x) eqn:Hq.
  - cbn [List.filter]. now rewrite IH'.
  - rewrite (H x) by (now left || assumption). exact IH'.
Qed.

Lemma filter_shrinks {A : Type} (p : A -> bool) (l : list A) (x : A) :
  In x l -> p x = false -> (length (List.filter p l) < length l)%nat.
Proof.
  induction l as [|y l IH]; intros Hx Hp; [contradiction|].
  cbn [List.filter length]. pose proof (List.filter_length_le p l) as Hle.
  destruct Hx as [->|Hx].
  - rewrite Hp. lia.
  - specialize (IH Hx Hp). destruct (p y); cbn [length]; lia.
Qed.

Lemma NoDup_ids_filter (p : Timer -> bool) (ts : list Timer) :
  NoDup (map timerId ts) -> NoDup (map timerId (List.filter p ts)).
Proof.
  induction ts as [|t ts IH]; intros Hnd; [constructor|].
  cbn [map] in Hnd. apply NoDup_cons in Hnd as [Hnot Hnd].
  cbn [List.filter]. destruct (p t); [|now apply IH].
  cbn [map]. apply NoDup_cons. split; [|now apply IH].
  intros Hin. apply Hnot. apply list_elem_of_In in Hin. apply list_elem_of_In.
  apply in_map_iff in Hin as (u & Hu & Hin). apply in_map_iff.
  exists u. split; [exact Hu|]. now apply List.filter_In in Hin as [? _].
Qed.

Lemma NoDup_ids_unique (ts : list Timer) (t u : Timer) :
  NoDup (map timerId ts) -> In t ts -> In u ts -> timerId u = timerId t ->
  u = t.
Proof.
  induction ts as [|x ts IH]; intros Hnd Ht Hu Hid; [contradiction|].
  cbn [map] in Hnd. apply NoDup_cons in Hnd as [Hnot Hnd].
  assert (Hfresh : forall y, In y ts -> timerId y <> timerId x).
  { intros y Hy Heq. apply Hnot. apply list_elem_of_In, in_map_iff. eauto. }
  destruct Ht as [->|Ht], Hu as [->|Hu]; try reflexivity.
  - exfalso. now apply (Hfresh u Hu).
  - exfalso. apply (Hfresh t Ht). congruence.
  - now apply IH.
Qed.

Lemma pushHistory_keeps_timers (w : World) :
  timers (pushHistory w) = timers w /\
  nextTimer (pushHistory w) = nextTimer w /\
  debounceTimer (pushHistory w) = debounceTimer w /\
  container (pushHistory w) = container w /\
  clock (pushHistory w) = clock w.
Proof.
  destruct (pushHistory_cases w) as [(_ & _ & ->)|(_ & ->)]; cbn; tauto.
Qed.

Lemma pushHistory_same_page (w w' : World) :
  same_page w w' -> same_page (pushHistory w) (pushHistory w').
Proof.
  unfold same_page, pushHistory. intros (Hh & Hi & Hc). rewrite Hh, Hi, Hc.
  match goal with |- context [if ?c then _ else _] => destruct c end;
    cbn; rewrite ?Hh, ?Hi, ?Hc; tauto.
Qed.

Lemma same_page_trans (a b c : World) :
  same_page a b -> same_page b c -> same_page a c.
Proof. unfold same_page. intros (-> & -> & ->) (-> & -> & ->). tauto. Qed.

Lemma fire_step_timers (t : Timer) (w : World) :
  timers (fire_step t w)
  = List.filter (fun u => negb (timer_is (timerId t) u)) (timers w) /\
  nextTimer (fire_step t w) = nextTimer w /\
  debounceTimer (fire_step t w) = debounceTimer w.
Proof.
  unfold fire_step. destruct (timerCallback t); cbn [run_callback].
  - destruct (pushHistory_keeps_timers
                (clearTimeout (Some (timerId t))
                   (set_clock (N.max (clock w) (due t)) w)))
      as (-> & -> & -> & _).
    cbn. tauto.
  - cbn. tauto.
Qed.

Lemma fire_step_page (t : Timer) (w : World) :
  same_page (fire_step t w) (if is_push t then pushHistory w else w).
Proof.
  unfold fire_step, is_push. destruct (timerCallback t); cbn [run_callback].
  - apply pushHistory_same_page. unfold same_page. cbn. tauto.
  - unfold same_page. cbn. tauto.
Qed.

Lemma fire_unfold (rounds : nat) (deadline : N) (w : World) :
  fire (S rounds) deadline w
  = match first_due (timers w) with
    | Some t =>
        if (due t <=? deadline)%N then fire rounds deadline (fire_step t w)
        else w
    | None => w
    end.
Proof. reflexivity. Qed.

(** With enough rounds, the event loop leaves pending exactly the timers
    that are due after the deadline. *)
Lemma fire_timers (rounds : nat) (deadline : N) :
  forall w : World,
    NoDup (map timerId (timers w)) ->
    (length (timers w) <= rounds)%nat ->
    timers (fire rounds deadline w)
    = List.filter (fun t => (deadline <? due t)%N) (timers w) /\
    nextTimer (fire rounds deadline w) = nextTimer w /\
    debounceTimer (fire rounds deadline w) = debounceTimer w.
Proof.
  induction rounds as [|rounds IH]; intros w Hnd Hlen.
  - destruct (timers w) eqn:Ht; [|cbn [length] in Hlen; lia].
    cbn [fire]. rewrite Ht. cbn. tauto.
  - rewrite fire_unfold. destruct (first_due (timers w)) as [t|] eqn:Hf.
    + pose proof (first_due_In _ _ Hf) as Hin.
      pose proof (first_due_least _ _ Hf) as Hleast.
      destruct (N.leb_spec (due t) deadline) as [Hdue|Hdue].
      * destruct (fire_step_timers t w) as (Ht & Hn & Hd).
        destruct (IH (fire_step t w)) as (IHt & IHn & IHd).
        { rewrite Ht. now apply NoDup_ids_filter. }
        { rewrite Ht.
          assert (length (List.filter (fun u => negb (timer_is (timerId t) u))
                            (timers w)) < length (timers w))%nat; [|lia].
          apply (filter_shrinks _ _ t Hin). unfold timer_is.
          now rewrite N.eqb_refl. }
        rewrite IHt, IHn, IHd, Ht, Hn, Hd. split; [|tauto].
        apply filter_absorb. intros u Hu Hq. unfold timer_is in Hq.
        apply negb_false_iff, N.eqb_eq in Hq.
        rewrite (NoDup_ids_unique (timers w) t u Hnd Hin Hu Hq).
        apply N.ltb_ge. exact Hdue.
      * split; [|tauto]. symmetry. apply filter_all. intros u Hu.
        apply N.ltb_lt. specialize (Hleast u Hu). lia.
    + apply first_due_None in Hf. rewrite Hf. cbn. tauto.
Qed.

(** While no [pushHistory] timer is due, the event loop leaves the log and
    the page alone. *)
Lemma fire_quiet (rounds : nat) (deadline : N) :
  forall w : World,
    (forall t, In t (timers w) -> is_push t = true -> (deadline < due t)%N) ->
    same_page (fire rounds deadline w) w.
Proof.
  induction rounds as [|rounds IH]; intros w Hq; [unfold same_page; tauto|].
  rewrite fire_unfold. destruct (first_due (timers w)) as [t|] eqn:Hf;
    [|unfold same_page; tauto].
  pose proof (first_due_In _ _ Hf) as Hin.
  destruct (N.leb_spec (due t) deadline) as [Hdue|Hdue];
    [|unfold same_page; tauto].
  assert (Hnot : is_push t = false).
  { destruct (is_push t) eqn:Hp; [|reflexivity].
    specialize (Hq t Hin Hp). lia. }
  pose proof (fire_step_page t w) as Hpage. rewrite Hnot in Hpage.
  apply (same_page_trans _ (fire_step t w)); [|exact Hpage].
  apply IH. intros u Hu Hp. apply Hq; [|exact Hp].
  destruct (fire_step_timers t w) as (Ht & _). rewrite Ht in Hu.
  now apply List.filter_In in Hu as [? _].
Qed.

(** When the one pending [pushHistory] timer is due by the deadline, the
    event loop runs [pushHistory] once. *)
Lemma fire_pushes (rounds : nat) (deadline : N) (T : Timer) :
  forall w : World,
    NoDup (map timerId (timers w)) ->
    (length (timers w) <= rounds)%nat ->
    In T (timers w) -> is_push T = true -> (due T <= deadline)%N ->
    (forall u, In u (timers w) -> is_push u = true -> u = T) ->
    same_page (fire rounds deadline w) (pushHistory w).
Proof.
  induction rounds as [|rounds IH]; intros w Hnd Hlen HT Hp Hdue Honly.
  - destruct (timers w); [contradiction | cbn [length] in Hlen; lia].
  - rewrite fire_unfold. destruct (first_due (timers w)) as [t|] eqn:Hf.
    2:{ apply first_due_None in Hf. rewrite Hf in HT. contradiction. }
    pose proof (first_due_In _ _ Hf) as Hin.
    pose proof (first_due_least _ _ Hf T HT) as Hleast.
    destruct (N.leb_spec (due t) deadline) as [_|?]; [|lia].
    destruct (fire_step_timers t w) as (Ht & _).
    pose proof (fire_step_page t w) as Hpage.
    assert (Hshrink : (length (timers (fire_step t w)) <= rounds)%nat).
    { rewrite Ht.
      assert (length (List.filter (fun u => negb (timer_is (timerId t) u))
                        (timers w)) < length (timers w))%nat; [|lia].
      apply (filter_shrinks _ _ t Hin). unfold timer_is.
      now rewrite N.eqb_refl. }
    destruct (is_push t) eqn:Hpt.
    + assert (t = T) by now apply Honly. subst t.
      apply (same_page_trans _ (fire_step T w)); [|exact Hpage].
      apply fire_quiet. intros u Hu Hpu. rewrite Ht in Hu.
      apply List.filter_In in Hu as [Hu Hid].
      rewrite (Honly u Hu Hpu) in Hid. unfold timer_is in Hid.
      now rewrite N.eqb_refl in Hid.
    + apply (same_page_trans _ (pushHistory (fire_step t w)));
        [|now apply pushHistory_same_page].
      apply IH; try assumption.
      * rewrite Ht. now apply NoDup_ids_filter.
      * rewrite Ht. apply List.filter_In. split; [exact HT|].
        unfold timer_is. apply negb_true_iff, N.eqb_neq. intros Hid.
        assert (T = t) by now apply (NoDup_ids_unique (timers w)).
        congruence.
      * intros u Hu Hpu. rewrite Ht in Hu.
        apply List.filter_In in Hu as [Hu _]. now apply Honly.
Qed.

End Timers.

Section Debounce.
Context {B : Browser}.

Lemma length_contents_type_in (i : nat) (html : jsstring) (w : World) :
  length (contents (set_container (type_in i html (container w)) w))
  = length (contents w).
Proof.
  unfold contents, type_in. cbn [container set_container].
  now rewrite regions_forEach_region, !length_map, length_imap.
Qed.




Lemma input_effect (i : nat) (html : jsstring) (w : World) :
  (i < length (contents w))%nat ->
  container (input i html w) = type_in i html (container w) /\
  history (input i html w) = history w /\
  historyIndex (input i html w) = historyIndex w /\
  timers (input i html w)
  = timers (clearTimeout (debounceTimer w) w)
    ++ [MkTimer (nextTimer w) (clock w + 500) PushHistory] /\
  nextTimer (input i html w) = (nextTimer w + 1)%N /\
  debounceTimer (input i html w) = Some (nextTimer w) /\
  clock (input i html w) = clock w.
Proof.
  intros Hi. unfold contents in Hi. rewrite length_map in Hi.
  unfold input. destruct (Nat.ltb_spec i (length (regions (container w))))
    as [_|?]; [|lia].
  unfold clearTimeout, setTimeout. cbn [debounceTimer set_container].
  destruct (debounceTimer w); cbn; tauto.
Qed.

Lemma cleared_timers (w : World) (t : Timer) :
  timers_ok w -> In t (timers (clearTimeout (debounceTimer w) w)) ->
  In t (timers w) /\ is_push t = false.
Proof.
  intros (Hdeb & _ & _) Ht. destruct (debounceTimer w) as [id|] eqn:Hd.
  - cbn in Ht. apply List.filter_In in Ht as [Hin Hid]. split; [exact Hin|].
    destruct (is_push t) eqn:Hp; [|reflexivity].
    specialize (Hdeb t Hin Hp). injection Hdeb as ->.
    unfold timer_is in Hid. now rewrite N.eqb_refl in Hid.
  - cbn in Ht. split; [exact Ht|].
    destruct (is_push t) eqn:Hp; [|reflexivity].
    specialize (Hdeb t Ht Hp). discriminate.
Qed.

Lemma cleared_ids (w : World) :
  NoDup (map timerId (timers w)) ->
  NoDup (map timerId (timers (clearTimeout (debounceTimer w) w))).
Proof.
  intros Hnd. destruct (debounceTimer w); cbn; [|exact Hnd].
  now apply NoDup_ids_filter.
Qed.

Lemma timers_ok_input (i : nat) (html : jsstring) (w : World) :
  timers_ok w -> (i < length (contents w))%nat -> timers_ok (input i html w).
Proof.
  intros Hok Hi. destruct (input_effect i html w Hi)
    as (_ & _ & _ & Ht & Hn & Hd & _).
  pose proof Hok as (_ & Hnd & Hids).
  unfold timers_ok. rewrite Ht, Hn, Hd. split; [|split].
  - intros t Hin Hp. apply in_app_or in Hin as [Hin|[<-|[]]]; [|reflexivity].
    destruct (cleared_timers w t Hok Hin) as [_ Hnp]. congruence.
  - rewrite map_app. apply NoDup_app. split; [now apply cleared_ids|].
    split; [|apply NoDup_singleton].
    intros id Hin Hnew. apply list_elem_of_In in Hin. apply list_elem_of_In in Hnew.
    apply in_map_iff in Hin as (t & <- & Hin). destruct Hnew as [Hnew|[]].
    cbn in Hnew. destruct (cleared_timers w t Hok Hin) as [Hin' _].
    specialize (Hids t Hin'). lia.
  - intros t Hin. apply in_app_or in Hin as [Hin|[<-|[]]]; [|cbn; lia].
    destruct (cleared_timers w t Hok Hin) as [Hin' _].
    specialize (Hids t Hin'). lia.
Qed.

Lemma elapse_effect (dt : N) (w : World) :
  NoDup (map timerId (timers w)) ->
  timers (elapse dt w)
  = List.filter (fun t => (clock w + dt <? due t)%N) (timers w) /\
  nextTimer (elapse dt w) = nextTimer w /\
  debounceTimer (elapse dt w) = debounceTimer w /\
  clock (elapse dt w) = (clock w + dt)%N /\
  same_page (elapse dt w) (fire (length (timers w)) (clock w + dt) w).
Proof.
  intros Hnd.
  destruct (fire_timers (length (timers w)) (clock w + dt) w Hnd (le_n _))
    as (Ht & Hn & Hd).
  unfold elapse, same_page. cbn. tauto.
Qed.

Lemma timers_ok_elapse (dt : N) (w : World) :
  timers_ok w -> timers_ok (elapse dt w).
Proof.
  intros (Hdeb & Hnd & Hids).
  destruct (elapse_effect dt w Hnd) as (Ht & Hn & Hd & _).
  unfold timers_ok. rewrite Ht, Hn, Hd. split; [|split].
  - intros t Hin. apply List.filter_In in Hin as [Hin _]. now apply Hdeb.
  - now apply NoDup_ids_filter.
  - intros t Hin. apply List.filter_In in Hin as [Hin _]. now apply Hids.
Qed.


Lemma timers_ok_initial : timers_ok initial.
Proof. split; [|split]; [intros t [] | constructor | intros t []]. Qed.

Lemma timers_ok_frame (w w' : World) :
  timers w' = timers w -> nextTimer w' = nextTimer w ->
  debounceTimer w' = debounceTimer w ->
  timers_ok w -> timers_ok w'.
Proof. unfold timers_ok. now intros -> -> ->. Qed.

Lemma timers_ok_showStatus (message : jsstring) (duration : N) (w : World) :
  timers_ok w -> timers_ok (showStatus message duration w).
Proof.
  intros (Hdeb & Hnd & Hids). unfold timers_ok, showStatus, setTimeout.
  cbn [snd timers nextTimer debounceTimer set_timers set_status].
  split; [|split].
  - intros t Hin Hp. apply in_app_or in Hin as [Hin|[<-|[]]];
      [now apply Hdeb | discriminate Hp].
  - rewrite map_app. apply NoDup_app. split; [exact Hnd|].
    split; [|apply NoDup_singleton].
    intros id Hin Hnew. apply list_elem_of_In in Hin. apply list_elem_of_In in Hnew.
    apply in_map_iff in Hin as (t & <- & Hin). destruct Hnew as [Hnew|[]].
    cbn in Hnew. specialize (Hids t Hin). lia.
  - intros t Hin. apply in_app_or in Hin as [Hin|[<-|[]]]; [|cbn; lia].
    specialize (Hids t Hin). lia.
Qed.

Lemma timers_ok_pushHistory (w : World) :
  timers_ok w -> timers_ok (pushHistory w).
Proof.
  destruct (pushHistory_keeps_timers w) as (Ht & Hn & Hd & _).
  now apply timers_ok_frame.
Qed.

Lemma timers_ok_render (w : World) : timers_ok w -> timers_ok (render w).
Proof.
  apply timers_ok_frame; unfold render; destruct (nodes w) as [[|n l]|];
    reflexivity.
Qed.

Lemma timers_ok_loadFile (parseLatex : Parser) (file : File) (w : World) :
  timers_ok w -> timers_ok (loadFile parseLatex file w).
Proof.
  intros Hok. unfold loadFile.
  destruct (negb (includes (lit "text/") (fileType file))
            && negb (endsWith (lit ".tex") (fileName file)));
    [now apply timers_ok_showStatus|].
  assert (Hkeep : forall w', timers_ok w' -> timers_ok (showLoading false w'))
    by (intros w'; now apply timers_ok_frame).
  assert (Hok1 : timers_ok (showLoading true w))
    by (revert Hok; now apply timers_ok_frame).
  assert (Hthrew : timers_ok
            (showStatus
               (lit "Error loading file. Please check console for details.")
               3000 (add_call ConsoleError (showLoading true w)))).
  { apply timers_ok_showStatus. revert Hok1. now apply timers_ok_frame. }
  apply Hkeep. unfold try_load. destruct (fileText file) as [text|];
    [|exact Hthrew].
  destruct (1000000 <? N.of_nat (length text))%N;
    [now apply timers_ok_showStatus|].
  unfold parse_and_show. destruct (parsed_nodes parseLatex text) as [ns|];
    [|exact Hthrew].
  apply timers_ok_showStatus, timers_ok_pushHistory, timers_ok_render.
  revert Hok1. now apply timers_ok_frame.
Qed.

End Debounce.


(** ** Sessions keep the editor sound *)

Section Sessions.
Context {B : Browser}.

Lemma log_ok_same_page (w w' : World) :
  same_page w' w -> log_ok w -> log_ok w'.
Proof. unfold same_page, log_ok. now intros (-> & -> & _). Qed.

Lemma in_sync_same_page (w w' : World) :
  same_page w' w -> rendering w' = rendering w -> in_sync w -> in_sync w'.
Proof.
  unfold same_page, in_sync, entry, contents, reads_back.
  now intros (-> & -> & ->) ->.
Qed.

Lemma in_sync_pushHistory (w : World) : log_ok w -> in_sync (pushHistory w).
Proof.
  intros Hok. exists (contents (pushHistory w)).
  split; [now apply pushHistory_in_sync | now left].
Qed.

(** Only [toggleRender] changes the mode. *)
Lemma pushHistory_mode (w : World) : rendering (pushHistory w) = rendering w.
Proof. now destruct (pushHistory_cases w) as [(_ & _ & ->)|(_ & ->)]. Qed.

Lemma fire_mode (rounds : nat) (deadline : N) :
  forall w : World, rendering (fire rounds deadline w) = rendering w.
Proof.
  induction rounds as [|rounds IH]; intros w; [reflexivity|].
  rewrite fire_unfold. destruct (first_due (timers w)) as [t|]; [|reflexivity].
  destruct (due t <=? deadline)%N; [|reflexivity].
  rewrite IH. unfold fire_step.
  destruct (timerCallback t); cbn [run_callback];
    [now rewrite pushHistory_mode | reflexivity].
Qed.

Lemma elapse_mode (dt : N) (w : World) : rendering (elapse dt w) = rendering w.
Proof. unfold elapse. cbn [rendering set_clock]. apply fire_mode. Qed.


Lemma render_mode (w : World) : rendering (render w) = rendering w.
Proof. unfold render. now destruct (nodes w) as [[|n l]|]. Qed.

Lemma loadFile_mode (parseLatex : Parser) (file : File) (w : World) :
  rendering (loadFile parseLatex file w) = rendering w.
Proof.
  unfold loadFile.
  destruct (negb (includes (lit "text/") (fileType file))
            && negb (endsWith (lit ".tex") (fileName file))); [reflexivity|].
  cbn [rendering showLoading set_loading].
  unfold try_load. destruct (fileText file) as [text|]; [|reflexivity].
  destruct (1000000 <? N.of_nat (length text))%N; [reflexivity|].
  unfold parse_and_show. destruct (parsed_nodes parseLatex text) as [ns|];
    [|reflexivity].
  change (rendering (showStatus ?m ?d ?x)) with (rendering x).
  now rewrite pushHistory_mode, render_mode.
Qed.



Lemma pending_showStatus (message : jsstring) (duration : N) (w : World) :
  pending_pushes (showStatus message duration w) = pending_pushes w.
Proof.
  unfold pending_pushes, showStatus, setTimeout.
  cbn [snd timers set_timers set_status]. rewrite List.filter_app.
  cbn. apply app_nil_r.
Qed.

(** Two pending [pushHistory] timers are the same timer. *)
Lemma one_pending_push (w : World) (t u : Timer) :
  timers_ok w -> In t (timers w) -> In u (timers w) ->
  is_push t = true -> is_push u = true -> u = t.
Proof.
  intros (Hdeb & Hnd & _) Ht Hu Hpt Hpu.
  apply (NoDup_ids_unique (timers w)); try assumption.
  pose proof (Hdeb t Ht Hpt) as H1. pose proof (Hdeb u Hu Hpu) as H2.
  congruence.
Qed.

Lemma elapse_cases (dt : N) (w : World) :
  timers_ok w ->
  (same_page (elapse dt w) w /\
   (pending_pushes (elapse dt w) = [] -> pending_pushes w = []))
  \/ same_page (elapse dt w) (pushHistory w).
Proof.
  intros Hok. pose proof Hok as (_ & Hnd & _).
  destruct (elapse_effect dt w Hnd) as (Ht & _ & _ & _ & Hs).
  destruct (pending_pushes w) as [|T P] eqn:HP.
  - left. split; [|reflexivity].
    apply (same_page_trans _ _ _ Hs), fire_quiet. intros t Hin Hp.
    assert (Hin' : In t (pending_pushes w)) by (apply List.filter_In; tauto).
    rewrite HP in Hin'. contradiction.
  - assert (HT : In T (timers w) /\ is_push T = true).
    { apply List.filter_In. fold (pending_pushes w). rewrite HP. now left. }
    destruct HT as [HT HpT].
    destruct (N.leb_spec (due T) (clock w + dt)) as [Hdue|Hdue].
    + right. apply (same_page_trans _ _ _ Hs).
      apply (fire_pushes _ _ T); try assumption; [lia|].
      intros u Hu Hpu. now apply (one_pending_push w).
    + left. split.
      * apply (same_page_trans _ _ _ Hs), fire_quiet. intros t Hin Hp.
        now rewrite (one_pending_push w T t Hok HT Hin HpT Hp).
      * intros Hnone. exfalso.
        assert (Hin : In T (pending_pushes (elapse dt w))).
        { apply List.filter_In. split; [|exact HpT]. rewrite Ht.
          apply List.filter_In. split; [exact HT|]. now apply N.ltb_lt. }
        rewrite Hnone in Hin. contradiction.
Qed.

Lemma sound_elapse (dt : N) (w : World) : sound w -> sound (elapse dt w).
Proof.
  intros (Hlog & Hok & Hset). split; [|split].
  - destruct (elapse_cases dt w Hok) as [[Hs _]|Hs].
    + now apply (log_ok_same_page w).
    + apply (log_ok_same_page (pushHistory w)); [exact Hs|].
      now apply log_ok_pushHistory.
  - now apply timers_ok_elapse.
  - intros Hnone Hidx. destruct (elapse_cases dt w Hok) as [[Hs Hp]|Hs].
    + apply (in_sync_same_page w); [exact Hs | apply elapse_mode |].
      apply Hset; [now apply Hp|].
      destruct Hs as (_ & <- & _). exact Hidx.
    + apply (in_sync_same_page (pushHistory w)); [exact Hs | |].
      * now rewrite elapse_mode, pushHistory_mode.
      * now apply in_sync_pushHistory.
Qed.

Lemma sound_input (i : nat) (html : jsstring) (w : World) :
  sound w -> sound (input i html w).
Proof.
  intros (Hlog & Hok & Hset).
  destruct (Nat.ltb_spec i (length (contents w))) as [Hi|Hi].
  - destruct (input_effect i html w Hi) as (_ & Hh & Hx & Ht & _).
    split; [|split].
    + unfold log_ok. now rewrite Hh, Hx.
    + now apply timers_ok_input.
    + intros Hnone _. exfalso.
      assert (Hin : In (MkTimer (nextTimer w) (clock w + 500) PushHistory)
                       (pending_pushes (input i html w))).
      { apply List.filter_In. split; [|reflexivity]. rewrite Ht.
        apply in_or_app. right. now left. }
      rewrite Hnone in Hin. contradiction.
  - unfold contents in Hi. rewrite length_map in Hi. unfold input.
    destruct (Nat.ltb_spec i (length (regions (container w)))) as [?|_];
      [lia|].
    exact (conj Hlog (conj Hok Hset)).
Qed.

Lemma loadFile_cases (parseLatex : Parser) (file : File) (w : World) :
  (same_page (loadFile parseLatex file w) w)
  \/ (exists ns,
        loadFile parseLatex file w
        = showLoading false
            (showStatus (lit "File loaded successfully") 3000
               (pushHistory (render (set_nodes ns (showLoading true w)))))).
Proof.
  unfold loadFile.
  destruct (negb (includes (lit "text/") (fileType file))
            && negb (endsWith (lit ".tex") (fileName file)));
    [left; unfold same_page; cbn; tauto|].
  unfold try_load. destruct (fileText file) as [text|];
    [|left; unfold same_page; cbn; tauto].
  destruct (1000000 <? N.of_nat (length text))%N;
    [left; unfold same_page; cbn; tauto|].
  unfold parse_and_show. destruct (parsed_nodes parseLatex text) as [ns|];
    [|left; unfold same_page; cbn; tauto].
  right. now exists ns.
Qed.

Lemma pending_loadFile (parseLatex : Parser) (file : File) (w : World) :
  pending_pushes (loadFile parseLatex file w) = pending_pushes w.
Proof.
  unfold loadFile.
  destruct (negb (includes (lit "text/") (fileType file))
            && negb (endsWith (lit ".tex") (fileName file)));
    [apply pending_showStatus|].
  change (pending_pushes (showLoading false ?x)) with (pending_pushes x).
  unfold try_load. destruct (fileText file) as [text|];
    [|now rewrite pending_showStatus].
  destruct (1000000 <? N.of_nat (length text))%N;
    [now rewrite pending_showStatus|].
  unfold parse_and_show. destruct (parsed_nodes parseLatex text) as [ns|];
    [|now rewrite pending_showStatus].
  rewrite pending_showStatus. unfold pending_pushes.
  destruct (pushHistory_keeps_timers
              (render (set_nodes ns (showLoading true w)))) as (-> & _).
  unfold render. cbn [nodes set_nodes]. now destruct ns.
Qed.

Lemma sound_loadFile (parseLatex : Parser) (file : File) (w : World) :
  sound w -> sound (loadFile parseLatex file w).
Proof.
  intros (Hlog & Hok & Hset).
  assert (Htimers : timers_ok (loadFile parseLatex file w))
    by now apply timers_ok_loadFile.
  destruct (loadFile_cases parseLatex file w) as [Hs|[ns Hload]].
  - split; [now apply (log_ok_same_page w)|]. split; [exact Htimers|].
    intros Hnone Hidx.
    apply (in_sync_same_page w); [exact Hs | apply loadFile_mode |].
    apply Hset; [now rewrite <- (pending_loadFile parseLatex file)|].
    destruct Hs as (_ & <- & _). exact Hidx.
  - set (w1 := render (set_nodes ns (showLoading true w))) in *.
    assert (Hlog1 : log_ok w1).
    { destruct (log_of_render ns w) as [Hh Hi]. fold w1 in Hh, Hi.
      unfold log_ok. now rewrite Hh, Hi. }
    assert (Hs : same_page (loadFile parseLatex file w) (pushHistory w1))
      by (rewrite Hload; unfold same_page; cbn; tauto).
    split; [|split; [exact Htimers|]].
    + apply (log_ok_same_page (pushHistory w1)); [exact Hs|].
      now apply log_ok_pushHistory.
    + intros _ _. apply (in_sync_same_page (pushHistory w1)); [exact Hs | |].
      * rewrite Hload. reflexivity.
      * now apply in_sync_pushHistory.
Qed.

Lemma restore_keeps_sound (w w1 : World) (message : jsstring)
    (snapshot : Snapshot) :
  log_ok w -> timers_ok w ->
  history w1 = history w ->
  0 <= historyIndex w1 <= Z.of_nat (length (history w)) - 1 ->
  timers w1 = timers w -> nextTimer w1 = nextTimer w ->
  debounceTimer w1 = debounceTimer w ->
  entry w1 = Some snapshot ->
  contents w1 = map (reads_back w) (restored snapshot (length (contents w))) ->
  rendering w1 = rendering w ->
  sound (showStatus message 3000 w1).
Proof.
  intros Hlog Hok Hh Hi Ht Hn Hd He Hc Hm.
  destruct (showStatus_keeps message 3000 w1) as (Hh' & Hi' & Hk' & Hc' & _).
  split; [|split].
  - apply (log_ok_same_log w); [assumption | congruence | now rewrite Hi'].
  - apply timers_ok_showStatus. now apply (timers_ok_frame w).
  - intros _ _. exists snapshot. unfold entry. rewrite Hh', Hi', Hc'.
    split; [exact He|]. right.
    change (reads_back (showStatus message 3000 w1)) with (reads_back w1).
    rewrite (reads_back_mode w w1 Hm).
    now rewrite Hc, length_map, length_restored.
Qed.

Lemma sound_undo (w : World) :
  sound w -> exists w', undo w = Returned w' /\ sound w'.
Proof.
  intros (Hlog & Hok & Hset). pose proof (log_ok_range w Hlog) as Hr.
  unfold undo. destruct (Z.ltb_spec 0 (historyIndex w)) as [Hpos|Hle].
  - destruct (js_index_Some (history w) (historyIndex w - 1)) as [s Hs]; [lia|].
    destruct (restoreHistory_Some (set_historyIndex (historyIndex w - 1) w) s Hs)
      as (w1 & -> & Hh & Hi & Hc & Ht & Hn & Hd & _ & Hm).
    eexists. split; [reflexivity|].
    apply (restore_keeps_sound w w1 _ s); try assumption.
    + rewrite Hi. cbn. lia.
    + unfold entry. now rewrite Hh, Hi.
  - exists w. split; [reflexivity|]. exact (conj Hlog (conj Hok Hset)).
Qed.

Lemma sound_redo (w : World) :
  sound w -> exists w', redo w = Returned w' /\ sound w'.
Proof.
  intros (Hlog & Hok & Hset). pose proof (log_ok_range w Hlog) as Hr.
  unfold redo.
  destruct (Z.ltb_spec (historyIndex w) (Z.of_nat (length (history w)) - 1))
    as [Hlt|Hge].
  - destruct (js_index_Some (history w) (historyIndex w + 1)) as [s Hs]; [lia|].
    destruct (restoreHistory_Some (set_historyIndex (historyIndex w + 1) w) s Hs)
      as (w1 & -> & Hh & Hi & Hc & Ht & Hn & Hd & _ & Hm).
    eexists. split; [reflexivity|].
    apply (restore_keeps_sound w w1 _ s); try assumption.
    + rewrite Hi. cbn. lia.
    + unfold entry. now rewrite Hh, Hi.
  - exists w. split; [reflexivity|]. exact (conj Hlog (conj Hok Hset)).
Qed.

Lemma sound_initial : sound initial.
Proof.
  split; [exact log_ok_initial|]. split; [exact timers_ok_initial|].
  intros _ H. cbn in H. lia.
Qed.

(** No handler throws in a session, and every state of it is sound. *)
Lemma sound_session (es : list event) :
  forall w, sound w -> exists w', session es w = Returned w' /\ sound w'.
Proof.
  induction es as [|e es IH]; intros w Hw; [now exists w|].
  assert (Hstep : exists w1, handle e w = Returned w1 /\ sound w1).
  { destruct e as [parseLatex file|i html|dt| |]; cbn [handle].
    - eexists. split; [reflexivity | now apply sound_loadFile].
    - eexists. split; [reflexivity | now apply sound_input].
    - eexists. split; [reflexivity | now apply sound_elapse].
    - now apply sound_undo.
    - now apply sound_redo. }
  destruct Hstep as (w1 & Hh & Hw1). cbn [session]. rewrite Hh. now apply IH.
Qed.

End Sessions.





(** Markup that is not stable does not come back either: a [pre] element
    typed with a line feed after its start tag is pushed as it reads, and
    reads without the line feed once [redo] has assigned it again. *)
Lemma unstable_markup_is_changed_by_undo_redo :
  exists w1 w2,
    let typed := lit "<pre>" ++ [10%N] ++ lit "foo</pre>" in
    let w := elapse 500 (input 0 typed
               (loadFile one_section (text_file (lit "a")) initial)) in
    pending_pushes w = [] /\ 0 < historyIndex w /\
    contents w = [typed] /\
    undo w = Returned w1 /\ redo w1 = Returned w2 /\
    history w2 = history w /\
    contents w2 = [lit "<pre>foo</pre>"] /\
    contents w2 <> contents w.
Proof.
  eexists _, _. cbv zeta.
  split; [vm_compute; reflexivity|]. split; [reflexivity|].
  split; [reflexivity|].
  split; [vm_compute; reflexivity|]. split; [vm_compute; reflexivity|].
  split; [reflexivity|]. split; [reflexivity | vm_compute; discriminate].
Qed.



(** * Further properties of the code *)

(** ** Loads that do not go through *)

Section LoadEdges.
Context {B : Browser}.

Lemma showStatus_shown (message : jsstring) (duration : N) (w : World) :
  statusShown (showStatus message duration w) = true /\
  loadingActive (showStatus message duration w) = loadingActive w /\
  undoDisabled (showStatus message duration w) = undoDisabled w /\
  redoDisabled (showStatus message duration w) = redoDisabled w /\
  rendering (showStatus message duration w) = rendering w /\
  calls (showStatus message duration w) = calls w /\
  clock (showStatus message duration w) = clock w.
Proof. cbn. tauto. Qed.

Lemma loadFile_oversized (parseLatex : Parser) (file : File)
    (text : jsstring) (w : World) :
  accepted file -> fileText file = Some text ->
  (1000000 < N.of_nat (length text))%N ->
  loadFile parseLatex file w
  = showLoading false
      (showStatus (lit "File too large (max 1MB)") 3000 (showLoading true w)).
Proof.
  intros Hacc Htext Hsize. unfold loadFile.
  assert (Hgate : negb (includes (lit "text/") (fileType file))
                  && negb (endsWith (lit ".tex") (fileName file)) = false).
  { destruct Hacc as [-> | ->]; [reflexivity | apply andb_false_r]. }
  rewrite Hgate. unfold try_load. rewrite Htext.
  now destruct (N.ltb_spec 1000000 (N.of_nat (length text))) as [_|?]; [|lia].
Qed.

End LoadEdges.

(** X2.  A text longer than 1,000,000 code units is turned away before the
    parser is looked at: the outcome is the same with any parser or none,
    the message is "File too large (max 1MB)", nothing is logged to the
    console, and nodes, page and log stay as they were. *)
Theorem oversized_file_is_rejected_before_parsing {B : Browser}
    (parseLatex : Parser) (file : File) (text : jsstring) (w : World) :
  accepted file -> fileText file = Some text ->
  (1000000 < N.of_nat (length text))%N ->
  loadFile parseLatex file w = loadFile NoParser file w /\
  statusText (loadFile parseLatex file w) = lit "File too large (max 1MB)" /\
  calls (loadFile parseLatex file w) = calls w /\
  nodes (loadFile parseLatex file w) = nodes w /\
  container (loadFile parseLatex file w) = container w /\
  history (loadFile parseLatex file w) = history w /\
  historyIndex (loadFile parseLatex file w) = historyIndex w.
Proof.
  intros Hacc Htext Hsize.
  rewrite (loadFile_oversized parseLatex file text w Hacc Htext Hsize).
  rewrite (loadFile_oversized NoParser file text w Hacc Htext Hsize).
  cbn. tauto.
Qed.

Lemma oversized_file_witness :
  statusText
    (loadFile throwing
       (MkFile (lit "text/plain") (lit "big.tex")
          (Some (replicate (N.to_nat 1000001) (unit_of "a"))))
       initial)
  = lit "File too large (max 1MB)".
Proof.
  assert (Hsize : (1000000 < N.of_nat
                     (length (replicate (N.to_nat 1000001) (unit_of "a"))))%N).
  { rewrite length_replicate, N2Nat.id. reflexivity. }
  exact (proj1 (proj2
           (oversized_file_is_rejected_before_parsing throwing
              (MkFile (lit "text/plain") (lit "big.tex")
                 (Some (replicate (N.to_nat 1000001) (unit_of "a"))))
              (replicate (N.to_nat 1000001) (unit_of "a")) initial
              (or_introl eq_refl) eq_refl Hsize))).
Defined.

(** ** What [render] puts on the page *)

Section RenderShape.
Context {B : Browser}.



Lemma fresh_renderNode (n : SectionNode) :
  forall number, Forall fresh_region (block_regions (renderNode n number)).
Proof.
  induction n as [lvl ttl cnt chn IH] using Node_nested_ind. intros number.
  pose proof (nested_renderNode (Node lvl ttl cnt chn) number) as Hn.
  cbn [renderNode nested children] in Hn.
  cbn [renderNode block_regions]. apply Forall_cons. split; [now split|].
  rewrite Hn. clear Hn. generalize O.
  induction IH as [|x l Hx _ IHl]; intros k; [constructor|].
  cbn [renderChildren flat_map]. apply Forall_app. split; [apply Hx | apply IHl].
Qed.

Lemma fresh_renderTop (ns : list SectionNode) :
  forall k, Forall fresh_region (flat_map block_regions (renderTop k ns)).
Proof.
  induction ns as [|n ns IH]; intros k; [constructor|].
  cbn [renderTop flat_map]. apply Forall_app.
  split; [apply fresh_renderNode | apply IH].
Qed.

End RenderShape.



(** X4.  Loading, into a new editor, a file in which the parser finds no
    section shows the "No Sections Found" screen and pushes the empty
    snapshot: the history is [[[]]] with the cursor on it, both buttons are
    disabled, and [undo] and [redo] return at once. *)
Theorem load_of_a_document_without_sections {B : Browser}
    (parseLatex : Parser) (file : File) (text : jsstring) :
  accepted file -> fileText file = Some text ->
  (N.of_nat (length text) <= 1000000)%N ->
  parsed_nodes parseLatex text = Some [] ->
  container (loadFile parseLatex file initial) = NoSections /\
  history (loadFile parseLatex file initial) = [[]] /\
  historyIndex (loadFile parseLatex file initial) = 0 /\
  undoDisabled (loadFile parseLatex file initial) = true /\
  redoDisabled (loadFile parseLatex file initial) = true /\
  undo (loadFile parseLatex file initial)
  = Returned (loadFile parseLatex file initial) /\
  redo (loadFile parseLatex file initial)
  = Returned (loadFile parseLatex file initial).
Proof.
  intros Hacc Htext Hsize Hparse.
  rewrite (loadFile_parsed parseLatex file text [] initial Hacc Htext Hsize Hparse).
  cbn. tauto.
Qed.

Lemma load_without_sections_witness :
  history (loadFile NoParser (text_file (lit "plain words")) initial) = [[]] /\
  undoDisabled (loadFile NoParser (text_file (lit "plain words")) initial) = true.
Proof.
  assert (Hsize : (N.of_nat (length (lit "plain words")) <= 1000000)%N)
    by (vm_compute; discriminate).
  destruct (load_of_a_document_without_sections NoParser
              (text_file (lit "plain words")) (lit "plain words")
              (or_introl eq_refl) eq_refl Hsize eq_refl)
    as (_ & Hh & _ & Hu & _).
  split; [exact Hh | exact Hu].
Defined.

(** ** The undo and redo buttons *)

Section Buttons.
Context {B : Browser}.

Lemma buttons_ok_frame (w w' : World) :
  history w' = history w -> historyIndex w' = historyIndex w ->
  undoDisabled w' = undoDisabled w -> redoDisabled w' = redoDisabled w ->
  buttons_ok w -> buttons_ok w'.
Proof. unfold buttons_ok. now intros -> -> -> ->. Qed.

Lemma buttons_ok_update (w : World) : buttons_ok (updateButtonStates w).
Proof. split; reflexivity. Qed.

Lemma buttons_ok_pushHistory (w : World) :
  buttons_ok w -> buttons_ok (pushHistory w).
Proof.
  intros Hb. destruct (pushHistory_cases w) as [(_ & _ & ->)|(_ & ->)];
    [exact Hb | apply buttons_ok_update].
Qed.

Lemma buttons_ok_showStatus (message : jsstring) (duration : N) (w : World) :
  buttons_ok w -> buttons_ok (showStatus message duration w).
Proof. now apply buttons_ok_frame. Qed.

Lemma buttons_ok_render (w : World) : buttons_ok w -> buttons_ok (render w).
Proof.
  intros Hb. unfold render. destruct (nodes w) as [[|n l]|];
    [exact Hb | apply buttons_ok_update | exact Hb].
Qed.

Lemma buttons_ok_loadFile (parseLatex : Parser) (file : File) (w : World) :
  buttons_ok w -> buttons_ok (loadFile parseLatex file w).
Proof.
  intros Hb. unfold loadFile.
  destruct (negb (includes (lit "text/") (fileType file))
            && negb (endsWith (lit ".tex") (fileName file)));
    [now apply buttons_ok_showStatus|].
  assert (Hkeep : forall w', buttons_ok w' -> buttons_ok (showLoading false w'))
    by (intros w'; now apply buttons_ok_frame).
  assert (Hb1 : buttons_ok (showLoading true w)) by exact Hb.
  assert (Hthrew : buttons_ok
            (showStatus
               (lit "Error loading file. Please check console for details.")
               3000 (add_call ConsoleError (showLoading true w))))
    by now apply buttons_ok_showStatus.
  apply Hkeep. unfold try_load. destruct (fileText file) as [text|];
    [|exact Hthrew].
  destruct (1000000 <? N.of_nat (length text))%N;
    [now apply buttons_ok_showStatus|].
  unfold parse_and_show. destruct (parsed_nodes parseLatex text) as [ns|];
    [|exact Hthrew].
  apply buttons_ok_showStatus, buttons_ok_pushHistory, buttons_ok_render.
  exact Hb1.
Qed.

Lemma buttons_ok_input (i : nat) (html : jsstring) (w : World) :
  buttons_ok w -> buttons_ok (input i html w).
Proof.
  unfold input. destruct (i <? length (regions (container w)))%nat; [|tauto].
  apply buttons_ok_frame; unfold clearTimeout, setTimeout;
    cbn [debounceTimer set_container]; destruct (debounceTimer w); reflexivity.
Qed.

Lemma buttons_ok_fire (rounds : nat) (deadline : N) :
  forall w, buttons_ok w -> buttons_ok (fire rounds deadline w).
Proof.
  induction rounds as [|rounds IH]; intros w Hb; [exact Hb|].
  rewrite fire_unfold. destruct (first_due (timers w)) as [t|]; [|exact Hb].
  destruct (due t <=? deadline)%N; [|exact Hb].
  apply IH. unfold fire_step. destruct (timerCallback t); cbn [run_callback].
  - apply buttons_ok_pushHistory. exact Hb.
  - exact Hb.
Qed.

Lemma buttons_ok_restoreHistory (w w' : World) :
  restoreHistory w = Returned w' -> buttons_ok w'.
Proof.
  unfold restoreHistory.
  destruct (js_index (history w) (historyIndex w)) as [s|].
  - intros H. injection H as <-. apply buttons_ok_update.
  - destruct (regions (container w)); [|discriminate].
    intros H. injection H as <-. apply buttons_ok_update.
Qed.

Lemma buttons_ok_undo (w w' : World) :
  buttons_ok w -> undo w = Returned w' -> buttons_ok w'.
Proof.
  intros Hb. unfold undo. destruct (0 <? historyIndex w).
  - destruct (restoreHistory _) as [w1|w1] eqn:Hr; [|discriminate].
    intros H. injection H as <-. apply buttons_ok_showStatus.
    now apply (buttons_ok_restoreHistory _ _ Hr).
  - intros H. now injection H as <-.
Qed.

Lemma buttons_ok_redo (w w' : World) :
  buttons_ok w -> redo w = Returned w' -> buttons_ok w'.
Proof.
  intros Hb. unfold redo.
  destruct (historyIndex w <? Z.of_nat (length (history w)) - 1).
  - destruct (restoreHistory _) as [w1|w1] eqn:Hr; [|discriminate].
    intros H. injection H as <-. apply buttons_ok_showStatus.
    now apply (buttons_ok_restoreHistory _ _ Hr).
  - intros H. now injection H as <-.
Qed.

Lemma buttons_ok_session (es : list event) :
  forall w w', buttons_ok w -> session es w = Returned w' -> buttons_ok w'.
Proof.
  induction es as [|e es IH]; intros w w' Hb Hs.
  - cbn in Hs. now injection Hs as <-.
  - cbn [session] in Hs. destruct (handle e w) as [w1|w1] eqn:Hh; [|discriminate].
    apply (IH w1 w'); [|exact Hs].
    destruct e as [parseLatex file|i html|dt| |]; cbn [handle] in Hh.
    + injection Hh as <-. now apply buttons_ok_loadFile.
    + injection Hh as <-. now apply buttons_ok_input.
    + injection Hh as <-. unfold elapse. now apply buttons_ok_fire.
    + now apply (buttons_ok_undo w).
    + now apply (buttons_ok_redo w).
Qed.

End Buttons.

(** X5.  In every state a session reaches, the undo button is disabled
    exactly when the cursor is at 0 or below and the redo button exactly
    when the cursor is on the last entry or beyond; so a disabled button
    stands for a call that would return at once, and an enabled one for a
    call that moves the cursor. *)
Theorem buttons_follow_the_cursor {B : Browser} (es : list event) (w : World) :
  session es initial = Returned w ->
  (undoDisabled w = true <-> historyIndex w <= 0) /\
  (redoDisabled w = true <->
   Z.of_nat (length (history w)) - 1 <= historyIndex w) /\
  (undoDisabled w = true -> undo w = Returned w) /\
  (redoDisabled w = true -> redo w = Returned w) /\
  (undoDisabled w = false ->
   exists w', undo w = Returned w' /\ historyIndex w' = historyIndex w - 1) /\
  (redoDisabled w = false ->
   exists w', redo w = Returned w' /\ historyIndex w' = historyIndex w + 1).
Proof.
  intros Hs.
  assert (Hb : buttons_ok w).
  { apply (buttons_ok_session es initial w); [split; reflexivity | exact Hs]. }
  destruct (sound_session es initial sound_initial) as (w' & Hs' & Hlog & _).
  rewrite Hs in Hs'. injection Hs' as <-.
  destruct Hb as [Hu Hr]. rewrite Hu, Hr. rewrite !Z.leb_le.
  split; [tauto|]. split; [tauto|]. split; [|split; [|split]].
  - intros Hle. unfold undo.
    now destruct (Z.ltb_spec 0 (historyIndex w)) as [?|_]; [lia|].
  - intros Hge. unfold redo.
    now destruct (Z.ltb_spec (historyIndex w)
                    (Z.of_nat (length (history w)) - 1)) as [?|_]; [lia|].
  - intros Hgt. apply Z.leb_gt in Hgt.
    destruct (undo_steps_back w Hlog Hgt) as (w' & s & Hun & _ & _ & Hi & _).
    now exists w'.
  - intros Hlt. apply Z.leb_gt in Hlt.
    destruct (redo_steps_forward w Hlog Hlt) as (w' & s & Hre & _ & _ & Hi & _).
    now exists w'.
Qed.

Lemma buttons_follow_the_cursor_witness :
  undoDisabled (elapse 500 (input 0 (lit "ab")
                  (loadFile one_section (text_file (lit "a")) initial)))
  = true <->
  historyIndex (elapse 500 (input 0 (lit "ab")
                  (loadFile one_section (text_file (lit "a")) initial))) <= 0.
Proof.
  exact (proj1 (buttons_follow_the_cursor
                  [Load one_section (text_file (lit "a"));
                   Input 0 (lit "ab"); Elapse 500]
                  (elapse 500 (input 0 (lit "ab")
                     (loadFile one_section (text_file (lit "a")) initial)))
                  eq_refl)).
Defined.

(** ** Status messages *)

Section Status.

Lemma fire_step_status (t : Timer) (w : World) :
  statusText (fire_step t w) = statusText w /\
  statusShown (fire_step t w) = (is_push t && statusShown w).
Proof.
  unfold fire_step, is_push. destruct (timerCallback t); cbn [run_callback].
  - match goal with |- context [pushHistory ?x] =>
      destruct (pushHistory_cases x) as [(_ & _ & ->)|(_ & ->)] end;
      cbn; tauto.
  - cbn. tauto.
Qed.

Lemma fire_status_text (rounds : nat) (deadline : N) :
  forall w, statusText (fire rounds deadline w) = statusText w.
Proof.
  induction rounds as [|rounds IH]; intros w; [reflexivity|].
  rewrite fire_unfold. destruct (first_due (timers w)) as [t|]; [|reflexivity].
  destruct (due t <=? deadline)%N; [|reflexivity].
  rewrite IH. apply fire_step_status.
Qed.

Lemma fire_stays_hidden (rounds : nat) (deadline : N) :
  forall w, statusShown w = false ->
            statusShown (fire rounds deadline w) = false.
Proof.
  induction rounds as [|rounds IH]; intros w Hw; [exact Hw|].
  rewrite fire_unfold. destruct (first_due (timers w)) as [t|]; [|exact Hw].
  destruct (due t <=? deadline)%N; [|exact Hw].
  apply IH. destruct (fire_step_status t w) as [_ ->]. rewrite Hw.
  apply andb_false_r.
Qed.

(** When a hide timer is due by the deadline, the event loop leaves the
    status message hidden. *)
Lemma fire_hides (rounds : nat) (deadline : N) (T : Timer) :
  forall w : World,
    NoDup (map timerId (timers w)) ->
    (length (timers w) <= rounds)%nat ->
    In T (timers w) -> is_push T = false -> (due T <= deadline)%N ->
    statusShown (fire rounds deadline w) = false.
Proof.
  induction rounds as [|rounds IH]; intros w Hnd Hlen HT Hp Hdue.
  - destruct (timers w); [contradiction | cbn [length] in Hlen; lia].
  - rewrite fire_unfold. destruct (first_due (timers w)) as [t|] eqn:Hf.
    2:{ apply first_due_None in Hf. rewrite Hf in HT. contradiction. }
    pose proof (first_due_In _ _ Hf) as Hin.
    pose proof (first_due_least _ _ Hf T HT) as Hleast.
    destruct (N.leb_spec (due t) deadline) as [_|?]; [|lia].
    destruct (fire_step_timers t w) as (Ht & _).
    destruct (fire_step_status t w) as [_ Hshown].
    destruct (is_push t) eqn:Hpt.
    + apply IH.
      * rewrite Ht. now apply NoDup_ids_filter.
      * rewrite Ht.
        assert (length (List.filter (fun u => negb (timer_is (timerId t) u))
                          (timers w)) < length (timers w))%nat; [|lia].
        apply (filter_shrinks _ _ t Hin). unfold timer_is.
        now rewrite N.eqb_refl.
      * rewrite Ht. apply List.filter_In. split; [exact HT|].
        unfold timer_is. apply negb_true_iff, N.eqb_neq. intros Hid.
        assert (T = t) by now apply (NoDup_ids_unique (timers w)).
        congruence.
      * exact Hp.
      * exact Hdue.
    + apply fire_stays_hidden. now rewrite Hshown.
Qed.

Lemma showStatus_timers (message : jsstring) (duration : N) (w : World) :
  timers (showStatus message duration w)
  = timers w ++ [MkTimer (nextTimer w) (clock w + duration) HideStatus].
Proof. reflexivity. Qed.

Lemma elapse_status (dt : N) (w : World) (T : Timer) :
  timers_ok w -> In T (timers w) -> is_push T = false ->
  (due T <= clock w + dt)%N ->
  statusShown (elapse dt w) = false /\ statusText (elapse dt w) = statusText w.
Proof.
  intros (_ & Hnd & _) HT Hp Hdue. unfold elapse.
  cbn [statusShown statusText set_clock]. split.
  - now apply (fire_hides _ _ T).
  - apply fire_status_text.
Qed.

End Status.

(** X6.  In any state a session reaches, [showStatus(message, duration)]
    puts the message on display, and once [duration] milliseconds have
    passed the message is hidden again, its text still in place. *)
Theorem status_message_is_hidden_after_its_duration {B : Browser}
    (es : list event) (w : World) (message : jsstring) (duration : N) :
  session es initial = Returned w ->
  statusShown (showStatus message duration w) = true /\
  statusText (showStatus message duration w) = message /\
  statusShown (elapse duration (showStatus message duration w)) = false /\
  statusText (elapse duration (showStatus message duration w)) = message.
Proof.
  intros Hs.
  destruct (sound_session es initial sound_initial) as (w' & Hs' & _ & Hok & _).
  rewrite Hs in Hs'. injection Hs' as <-.
  split; [reflexivity|]. split; [reflexivity|].
  apply (elapse_status duration (showStatus message duration w)
           (MkTimer (nextTimer w) (clock w + duration) HideStatus)).
  - now apply timers_ok_showStatus.
  - rewrite showStatus_timers. apply in_or_app. right. now left.
  - reflexivity.
  - cbn. lia.
Qed.

Lemma status_message_witness :
  statusShown (elapse 3000 (showStatus (lit "Saved") 3000 initial)) = false.
Proof.
  exact (proj1 (proj2 (proj2
           (status_message_is_hidden_after_its_duration
              [] initial (lit "Saved") 3000 eq_refl)))).
Defined.



(** ** More on the history *)

Section HistoryMore.
Context {B : Browser}.





Lemma pending_pushes_short (w : World) :
  timers_ok w -> (length (pending_pushes w) <= 1)%nat.
Proof.
  intros Hok. destruct (pending_pushes w) as [|t [|u l]] eqn:HP;
    [cbn; lia | cbn; lia |]. exfalso.
  assert (Ht : In t (timers w) /\ is_push t = true).
  { apply List.filter_In. fold (pending_pushes w). rewrite HP. now left. }
  assert (Hu : In u (timers w) /\ is_push u = true).
  { apply List.filter_In. fold (pending_pushes w). rewrite HP. right. now left. }
  destruct Ht as [Ht Hpt], Hu as [Hu Hpu].
  assert (Heq : u = t) by now apply (one_pending_push w).
  pose proof Hok as (_ & Hnd & _).
  pose proof (NoDup_ids_filter is_push (timers w) Hnd) as Hnd'.
  fold (pending_pushes w) in Hnd'. rewrite HP, Heq in Hnd'. cbn [map] in Hnd'.
  apply NoDup_cons in Hnd' as [Hnot _]. apply Hnot. left.
Qed.

End HistoryMore.





(** X10.  In no session does a handler throw; the log keeps its invariant
    throughout, and at any moment at most one [pushHistory] timer is
    pending, the one [this.debounceTimer] names. *)
Theorem sessions_never_throw {B : Browser} (es : list event) :
  exists w,
    session es initial = Returned w /\ log_ok w /\
    (length (pending_pushes w) <= 1)%nat /\
    (forall t, In t (pending_pushes w) -> debounceTimer w = Some (timerId t)).
Proof.
  destruct (sound_session es initial sound_initial)
    as (w & Hs & Hlog & Hok & _).
  exists w. split; [exact Hs|]. split; [exact Hlog|].
  split; [now apply pending_pushes_short|].
  intros t Ht. apply List.filter_In in Ht as [Hin Hp].
  destruct Hok as (Hdeb & _). now apply Hdeb.
Qed.

(** X11.  [pushHistory] never rewrites what lies at or before the cursor:
    on a log that satisfies its invariant every entry from 0 up to the
    cursor is the same after the call, and the cursor stays or moves forward
    by one. *)
Theorem pushHistory_keeps_the_entries_up_to_the_cursor (w : World) (i : Z) :
  log_ok w -> 0 <= i <= historyIndex w ->
  js_index (history (pushHistory w)) i = js_index (history w) i /\
  historyIndex w <= historyIndex (pushHistory w) <= historyIndex w + 1.
Proof.
  intros Hok Hi. pose proof (log_ok_range w Hok) as Hr.
  destruct (pushHistory_cases w) as [(_ & _ & ->)|(_ & ->)];
    [split; [reflexivity | lia]|].
  destruct (slice0_in_range (history w) (historyIndex w + 1)) as [Hs Hl]; [lia|].
  unfold pushed.
  cbn [history historyIndex updateButtonStates set_buttons set_historyIndex
       set_history].
  split; [|lia]. unfold js_index.
  destruct (Z.ltb_spec i 0) as [?|_]; [lia|].
  rewrite lookup_app_l by lia. rewrite Hs. apply lookup_take_lt. lia.
Qed.

Lemma pushHistory_keeps_witness :
  js_index
    (history (edit [lit "ax"]
                (edit [lit "ab"]
                   (loadFile one_section (text_file (lit "a")) initial))))
    0
  = Some [lit "a"].
Proof.
  set (w := set_container
              (type_all [lit "ax"]
                 (container (edit [lit "ab"]
                    (loadFile one_section (text_file (lit "a")) initial))))
              (edit [lit "ab"]
                 (loadFile one_section (text_file (lit "a")) initial))).
  assert (Hok : log_ok w).
  { apply log_ok_intro; [discriminate | vm_compute; split; discriminate]. }
  assert (Hi : 0 <= 0 <= historyIndex w) by (vm_compute; split; discriminate).
  rewrite (proj1 (pushHistory_keeps_the_entries_up_to_the_cursor w 0 Hok Hi)
           : js_index (history (edit [lit "ax"] _)) 0 = _).
  reflexivity.
Defined.

(** X12.  A successful load re-renders and pushes, so the page and the entry
    at the cursor agree from then on: a debounce timer that was pending when
    the file was loaded adds no entry when it fires, and however much time
    passes after the load, entries, cursor and page stay as the load left
    them. *)
Theorem timers_pending_at_load_push_nothing {B : Browser}
    (es : list event) (w : World) (parseLatex : Parser) (file : File)
    (text : jsstring) (ns : list SectionNode) (dt : N) :
  session es initial = Returned w ->
  accepted file -> fileText file = Some text ->
  (N.of_nat (length text) <= 1000000)%N ->
  parsed_nodes parseLatex text = Some ns ->
  history (elapse dt (loadFile parseLatex file w))
  = history (loadFile parseLatex file w) /\
  historyIndex (elapse dt (loadFile parseLatex file w))
  = historyIndex (loadFile parseLatex file w) /\
  container (elapse dt (loadFile parseLatex file w))
  = container (loadFile parseLatex file w).
Proof.
  intros Hs Hacc Htext Hsize Hparse.
  destruct (sound_session es initial sound_initial) as (w' & Hs' & Hsound).
  rewrite Hs in Hs'. injection Hs' as <-.
  pose proof (sound_loadFile parseLatex file w Hsound) as (Hlog2 & Hok2 & _).
  set (w2 := loadFile parseLatex file w) in *.
  assert (He : entry w2 = Some (contents w2)).
  { unfold w2.
    rewrite (loadFile_parsed parseLatex file text ns w Hacc Htext Hsize Hparse).
    set (w1 := render (set_nodes ns (showLoading true w))).
    assert (Hlog1 : log_ok w1).
    { destruct Hsound as (Hlog & _). destruct (log_of_render ns w) as [Hh Hi].
      fold w1 in Hh, Hi. unfold log_ok. now rewrite Hh, Hi. }
    exact (pushHistory_in_sync w1 Hlog1). }
  assert (Hsame : pushHistory w2 = w2).
  { destruct (pushHistory_cases w2) as [(_ & _ & H)|(Hn & _)]; [exact H|].
    exfalso. apply Hn. split; [|exact He].
    unfold entry, js_index in He.
    destruct (Z.ltb_spec (historyIndex w2) 0); [discriminate | assumption]. }
  destruct (elapse_cases dt w2 Hok2) as [[Hp _]|Hp];
    [|rewrite Hsame in Hp]; exact Hp.
Qed.

Lemma timers_pending_at_load_witness :
  history (elapse 500 (loadFile one_section (text_file (lit "b"))
             (input 0 (lit "ax")
                (loadFile one_section (text_file (lit "a")) initial))))
  = [[lit "a"]; [lit "b"]].
Proof.
  assert (Hsize : (N.of_nat (length (lit "b")) <= 1000000)%N)
    by (vm_compute; discriminate).
  rewrite (proj1 (timers_pending_at_load_push_nothing
                    [Load one_section (text_file (lit "a")); Input 0 (lit "ax")]
                    (input 0 (lit "ax")
                       (loadFile one_section (text_file (lit "a")) initial))
                    one_section (text_file (lit "b")) (lit "b")
                    [Node 1 (lit "Intro") (lit "b") []] 500
                    eq_refl (or_introl eq_refl) eq_refl Hsize eq_refl)).
  vm_compute. reflexivity.
Defined.

(** ** What edits, timers, undo and redo leave alone *)

Section Layout.
Context {B : Browser}.





End Layout.



(** ** Collapsing and expanding *)

Section Collapse.

Lemma toggleVisibility_flips (b : Block) :
  isVisible (toggleVisibility b) = negb (isVisible b) /\
  ariaExpanded (toggleVisibility b) = negb (isVisible b) /\
  nestedDisplay (toggleVisibility b) = regionDisplay (region (toggleVisibility b)) /\
  toggleGlyph (toggleVisibility b)
  = (if isVisible b then glyph_right else glyph_down) /\
  nested (toggleVisibility b) = nested b /\
  innerHTML (region (toggleVisibility b)) = innerHTML (region b) /\
  contentEditable (region (toggleVisibility b)) = contentEditable (region b).
Proof.
  destruct b as [lvl ex num ttl gl [ed html lab dsp] nd bs].
  destruct dsp; cbn; tauto.
Qed.

Lemma toggleVisibility_thrice (b : Block) :
  toggleVisibility (toggleVisibility (toggleVisibility b)) = toggleVisibility b.
Proof.
  destruct b as [lvl ex num ttl gl [ed html lab dsp] nd bs].
  destruct dsp; reflexivity.
Qed.

Lemma nested_set_nested (bs : list Block) (b : Block) :
  nested (set_nested bs b) = bs.
Proof. now destruct b. Qed.

Lemma set_nested_set_nested (bs bs' : list Block) (b : Block) :
  set_nested bs (set_nested bs' b) = set_nested bs b.
Proof. now destruct b. Qed.

Lemma at_path_unfold (f : Block -> Block) (i j : nat) (p : path)
    (l : list Block) :
  at_path f (i :: j :: p) l
  = alter (fun b => set_nested (at_path f (j :: p) (nested b)) b) i l.
Proof. reflexivity. Qed.

Lemma at_path_compose (f g : Block -> Block) (p : path) :
  forall l, at_path f p (at_path g p l) = at_path (fun b => f (g b)) p l.
Proof.
  induction p as [|i p IH]; intros l; [reflexivity|].
  destruct p as [|j p].
  - cbn [at_path]. now rewrite list_alter_alter_eq.
  - rewrite !at_path_unfold, list_alter_alter_eq.
    apply list_alter_ext; [|reflexivity]. intros b _.
    unfold compose. cbv beta.
    now rewrite nested_set_nested, set_nested_set_nested, IH.
Qed.

Lemma at_path_ext (f g : Block -> Block) (p : path) :
  (forall b, f b = g b) -> forall l, at_path f p l = at_path g p l.
Proof.
  intros Hfg. induction p as [|i p IH]; intros l; [reflexivity|].
  destruct p as [|j p].
  - cbn [at_path]. apply list_alter_ext; [|reflexivity]. intros b _. apply Hfg.
  - rewrite !at_path_unfold. apply list_alter_ext; [|reflexivity].
    intros b _. now rewrite IH.
Qed.

Lemma block_at_unfold (i j : nat) (p : path) (l : list Block) :
  block_at (i :: j :: p) l
  = match l !! i with
    | Some b => block_at (j :: p) (nested b)
    | None => None
    end.
Proof. reflexivity. Qed.

(** The block at [p] after [f] was applied there. *)
Lemma block_at_at_path (f : Block -> Block) (p : path) :
  forall l, block_at p (at_path f p l) = f <$> block_at p l.
Proof.
  induction p as [|i p IH]; intros l; [reflexivity|].
  destruct p as [|j p].
  - cbn [at_path block_at]. apply list_lookup_alter_eq.
  - rewrite at_path_unfold, !block_at_unfold, list_lookup_alter_eq.
    destruct (l !! i) as [b|]; [|reflexivity].
    cbn [fmap option_fmap option_map]. now rewrite nested_set_nested, IH.
Qed.

(** The blocks at other positions keep their own state. *)
Lemma block_at_elsewhere (f : Block -> Block) (p : path) :
  (forall b, nested (f b) = nested b) ->
  forall q l, q <> p ->
    own <$> block_at q (at_path f p l) = own <$> block_at q l.
Proof.
  intros Hf. induction p as [|i p IH]; intros q l Hq; [reflexivity|].
  destruct q as [|k q]; [reflexivity|].
  destruct (decide (k = i)) as [->|Hk].
  - destruct p as [|j p].
    + cbn [at_path]. destruct q as [|k q]; [contradiction|].
      rewrite !block_at_unfold, list_lookup_alter_eq.
      destruct (l !! i) as [b|]; [|reflexivity].
      cbn [fmap option_fmap option_map]. now rewrite Hf.
    + rewrite at_path_unfold. destruct q as [|k q].
      * cbn [block_at]. rewrite list_lookup_alter_eq.
        destruct (l !! i) as [b|]; [|reflexivity].
        cbn [fmap option_fmap option_map]. unfold own.
        now rewrite set_nested_set_nested.
      * rewrite !block_at_unfold, list_lookup_alter_eq.
        destruct (l !! i) as [b|]; [|reflexivity].
        cbn [fmap option_fmap option_map]. rewrite nested_set_nested.
        apply IH. congruence.
  - assert (Hl : at_path f (i :: p) l !! k = l !! k).
    { destruct p as [|j p]; [cbn [at_path]|rewrite at_path_unfold];
        now apply list_lookup_alter_ne. }
    destruct q as [|k' q]; [cbn [block_at]; now rewrite Hl|].
    rewrite !block_at_unfold. now rewrite Hl.
Qed.

Lemma markup_of_set_nested (bs : list Block) (b : Block) :
  block_regions (set_nested bs b) = region b :: flat_map block_regions bs.
Proof. now destruct b. Qed.

Lemma block_regions_unfold (b : Block) :
  block_regions b = region b :: flat_map block_regions (nested b).
Proof. now destruct b. Qed.

Lemma regions_alter {A : Type} (g : Region -> A) (h : Block -> Block)
    (i : nat) :
  forall l,
    (forall b, l !! i = Some b ->
               map g (block_regions (h b)) = map g (block_regions b)) ->
    map g (flat_map block_regions (alter h i l))
    = map g (flat_map block_regions l).
Proof.
  revert i. intros i l. revert i.
  induction l as [|x l IH]; intros [|i] H; try reflexivity.
  - cbn [alter list_alter flat_map]. rewrite !map_app. f_equal. now apply H.
  - cbn [alter list_alter flat_map]. rewrite !map_app. f_equal.
    apply IH. intros b Hb. now apply H.
Qed.

(** Applying at [p] a function that keeps the regions of a block up to [g]
    keeps the regions of the forest up to [g]. *)
Lemma regions_at_path {A : Type} (g : Region -> A) (f : Block -> Block)
    (p : path) :
  (forall b, g (region (f b)) = g (region b)) ->
  (forall b, nested (f b) = nested b) ->
  forall l, map g (flat_map block_regions (at_path f p l))
            = map g (flat_map block_regions l).
Proof.
  intros Hr Hn. induction p as [|i p IH]; intros l; [reflexivity|].
  destruct p as [|j p].
  - cbn [at_path]. apply regions_alter. intros b _.
    rewrite (block_regions_unfold (f b)), (block_regions_unfold b).
    cbn [map]. now rewrite Hr, Hn.
  - rewrite at_path_unfold. apply regions_alter. intros b _.
    rewrite markup_of_set_nested, (block_regions_unfold b).
    cbn [map]. now rewrite IH.
Qed.

End Collapse.

Section CollapseMore.

Lemma at_path_missing (f : Block -> Block) (p : path) :
  forall l, block_at p l = None -> at_path f p l = l.
Proof.
  induction p as [|i p IH]; intros l Hl; [reflexivity|].
  destruct p as [|j p].
  - cbn [at_path block_at] in *. apply list_eq. intros k.
    destruct (decide (i = k)) as [<-|Hk];
      [now rewrite list_lookup_alter_eq, Hl | now apply list_lookup_alter_ne].
  - rewrite at_path_unfold. rewrite block_at_unfold in Hl.
    apply list_eq. intros k.
    destruct (decide (i = k)) as [<-|Hk]; [|now apply list_lookup_alter_ne].
    rewrite list_lookup_alter_eq. destruct (l !! i) as [b|]; [|reflexivity].
    cbn [fmap option_fmap option_map]. rewrite (IH _ Hl). now destruct b.
Qed.

Lemma contents_collapse (p : path) (w : World) :
  contents (collapse p w) = contents w /\
  map contentEditable (regions (container (collapse p w)))
  = map contentEditable (regions (container w)).
Proof.
  unfold contents, collapse. cbn [container set_container].
  destruct (container w) as [| |bs]; cbn [click_header regions]; try tauto.
  split; apply regions_at_path; intros b; apply toggleVisibility_flips.
Qed.

Lemma pushHistory_reads_contents (w w' : World) :
  history w' = history w -> historyIndex w' = historyIndex w ->
  contents w' = contents w ->
  history (pushHistory w') = history (pushHistory w) /\
  historyIndex (pushHistory w') = historyIndex (pushHistory w).
Proof.
  intros Hh Hi Hc. unfold pushHistory. fold (contents w) (contents w').
  rewrite Hh, Hi, Hc.
  match goal with |- context [if ?c then _ else _] => destruct c end;
    cbn; rewrite ?Hh, ?Hi; tauto.
Qed.

End CollapseMore.

(** X14.  Collapsing or expanding a section is invisible to the history:
    the markup and the editability of every region are the same after the
    click, so a [pushHistory] after it does to the log exactly what it would
    have done before it, and [undo] and [redo] are not affected. *)
Theorem collapse_is_invisible_to_the_history (p : path) (w : World) :
  contents (collapse p w) = contents w /\
  map contentEditable (regions (container (collapse p w)))
  = map contentEditable (regions (container w)) /\
  history (pushHistory (collapse p w)) = history (pushHistory w) /\
  historyIndex (pushHistory (collapse p w)) = historyIndex (pushHistory w) /\
  (0 <= historyIndex w -> entry w = Some (contents w) ->
   pushHistory (collapse p w) = collapse p w).
Proof.
  destruct (contents_collapse p w) as [Hc He].
  split; [exact Hc|]. split; [exact He|].
  destruct (pushHistory_reads_contents w (collapse p w) eq_refl eq_refl Hc)
    as [Hh Hi].
  split; [exact Hh|]. split; [exact Hi|].
  intros Hpos Hen.
  destruct (pushHistory_cases (collapse p w)) as [(_ & _ & H)|(Hn & _)];
    [exact H|].
  exfalso. apply Hn. split; [exact Hpos|]. rewrite Hc. exact Hen.
Qed.

Lemma collapse_is_invisible_witness :
  pushHistory (collapse [0%nat]
                 (loadFile one_section (text_file (lit "a")) initial))
  = collapse [0%nat] (loadFile one_section (text_file (lit "a")) initial).
Proof.
  apply (proj2 (proj2 (proj2 (proj2
           (collapse_is_invisible_to_the_history [0%nat]
              (loadFile one_section (text_file (lit "a")) initial)))))).
  - vm_compute. discriminate.
  - vm_compute. reflexivity.
Defined.

(** X15.  A click on a header flips the visibility of that block: content
    and nested container get the same display value, [aria-expanded] and
    the glyph follow it, and the blocks nested in it are kept.  Three clicks
    come to the same as one, a click on a position with no block changes
    nothing, and on the header's own [keydown] a key that is not handled
    leaves the page as it is. *)
Theorem click_flips_the_visibility_of_one_block
    (p : path) (bs : list Block) :
  (forall b, block_at p bs = Some b ->
     exists b',
       block_at p (at_path toggleVisibility p bs) = Some b' /\
       isVisible b' = negb (isVisible b) /\
       ariaExpanded b' = isVisible b' /\
       nestedDisplay b' = regionDisplay (region b') /\
       toggleGlyph b' = (if isVisible b' then glyph_down else glyph_right) /\
       nested b' = nested b) /\
  (block_at p bs = None -> click_header p (Sections bs) = Sections bs) /\
  click_header p (click_header p (click_header p (Sections bs)))
  = click_header p (Sections bs) /\
  (forall key, snd (header_keydown p key (Sections bs)) = false ->
               fst (header_keydown p key (Sections bs)) = Sections bs).
Proof.
  split; [|split; [|split]].
  - intros b Hb. exists (toggleVisibility b).
    rewrite block_at_at_path, Hb.
    destruct (toggleVisibility_flips b) as (Hv & Ha & Hn & Hg & Hnest & _).
    split; [reflexivity|]. split; [exact Hv|]. rewrite Hv.
    split; [exact Ha|]. split; [exact Hn|]. split; [|exact Hnest].
    rewrite Hg. now destruct (isVisible b).
  - intros Hnone. cbn [click_header]. now rewrite at_path_missing.
  - cbn [click_header]. rewrite !at_path_compose. f_equal.
    apply at_path_ext. intros b. apply toggleVisibility_thrice.
  - intros key. unfold header_keydown.
    now destruct (JsString.eqb key (lit "Enter") || JsString.eqb key (lit " ")).
Qed.

Lemma click_flips_witness :
  exists b',
    block_at [0%nat]
      (at_path toggleVisibility [0%nat]
         (renderTop 0 [Node 1 (lit "A") (lit "one") []])) = Some b' /\
    isVisible b' = false.
Proof.
  destruct (proj1 (click_flips_the_visibility_of_one_block [0%nat]
                     (renderTop 0 [Node 1 (lit "A") (lit "one") []]))
              _ eq_refl)
    as (b' & Hb & Hv & _).
  exists b'. split; [exact Hb | exact Hv].
Defined.

(** X16.  A click on the header at [p] changes the block at [p] only: the
    block at every other position, above, beside or below [p], keeps its own
    display values, [aria-expanded], glyph, number, title and region, so a
    section that is expanded again shows its subsections as they were. *)
Theorem click_changes_one_block_only (p q : path) (bs : list Block) :
  q <> p ->
  own <$> block_at q (at_path toggleVisibility p bs) = own <$> block_at q bs.
Proof.
  intros Hq. apply block_at_elsewhere; [|exact Hq].
  intros b. apply toggleVisibility_flips.
Qed.

Lemma click_changes_one_block_witness :
  own <$> block_at [0%nat; 0%nat]
            (at_path toggleVisibility [0%nat]
               (renderTop 0 [Node 1 (lit "A") [] [Node 2 (lit "B") [] []]]))
  = own <$> block_at [0%nat; 0%nat]
              (renderTop 0 [Node 1 (lit "A") [] [Node 2 (lit "B") [] []]]).
Proof.
  apply (click_changes_one_block_only [0%nat] [0%nat; 0%nat]).
  discriminate.
Defined.

(** ** Render mode *)

Section RenderMode.
Context {B : Browser}.




End RenderMode.



(** X18.  [loadFile] never changes the mode, and [render] makes every region
    editable: a file loaded successfully while the editor is in render mode
    leaves the editor in render mode with all regions editable, and asks for
    no typesetting. *)
Theorem load_in_render_mode_leaves_regions_editable {B : Browser}
    (parseLatex : Parser) (file : File) (text : jsstring)
    (ns : list SectionNode) (w : World) :
  rendering (loadFile parseLatex file w) = rendering w /\
  (accepted file -> fileText file = Some text ->
   (N.of_nat (length text) <= 1000000)%N ->
   parsed_nodes parseLatex text = Some ns ->
   Forall (fun e => contentEditable e = true)
     (regions (container (loadFile parseLatex file w))) /\
   calls (loadFile parseLatex file w) = calls w).
Proof.
  split.
  - unfold loadFile.
    destruct (negb (includes (lit "text/") (fileType file))
              && negb (endsWith (lit ".tex") (fileName file)));
      [reflexivity|].
    unfold try_load. destruct (fileText file) as [t|]; [|reflexivity].
    destruct (1000000 <? N.of_nat (length t))%N; [reflexivity|].
    unfold parse_and_show. destruct (parsed_nodes parseLatex t) as [l|];
      [|reflexivity].
    cbn [rendering showLoading set_loading].
    destruct (showStatus_shown (lit "File loaded successfully") 3000
                (pushHistory (render (set_nodes l (showLoading true w)))))
      as (_ & _ & _ & _ & -> & _).
    match goal with |- context [pushHistory ?x] =>
      destruct (pushHistory_cases x) as [(_ & _ & ->)|(_ & ->)] end;
      unfold render; cbn [nodes set_nodes]; now destruct l.
  - intros Hacc Htext Hsize Hparse.
    rewrite (loadFile_parsed parseLatex file text ns w Hacc Htext Hsize Hparse).
    set (w1 := render (set_nodes ns (showLoading true w))).
    assert (Hkeep : container (pushHistory w1) = container w1 /\
                    calls (pushHistory w1) = calls w1).
    { destruct (pushHistory_cases w1) as [(_ & _ & ->)|(_ & ->)]; cbn; tauto. }
    destruct Hkeep as [Hc Hcalls].
    cbn [container calls showLoading set_loading].
    destruct (showStatus_shown (lit "File loaded successfully") 3000
                (pushHistory w1)) as (_ & _ & _ & _ & _ & -> & _).
    destruct (showStatus_keeps (lit "File loaded successfully") 3000
                (pushHistory w1)) as (_ & _ & -> & _).
    rewrite Hc, Hcalls. split.
    + unfold w1, render. cbn [nodes set_nodes].
      destruct ns as [|n l]; [constructor|].
      cbn [container updateButtonStates set_buttons set_container regions].
      eapply Forall_impl; [apply fresh_renderTop|]. now intros e [He _].
    + unfold w1, render. cbn [nodes set_nodes]. now destruct ns.
Qed.

Lemma load_in_render_mode_witness :
  rendering (loadFile one_section (text_file (lit "a"))
               (world (toggleRender new_desk))) = true /\
  Forall (fun e => contentEditable e = true)
    (regions (container (loadFile one_section (text_file (lit "a"))
                           (world (toggleRender new_desk))))).
Proof.
  assert (Hsize : (N.of_nat (length (lit "a")) <= 1000000)%N)
    by (vm_compute; discriminate).
  destruct (load_in_render_mode_leaves_regions_editable one_section
              (text_file (lit "a")) (lit "a")
              [Node 1 (lit "Intro") (lit "a") []]
              (world (toggleRender new_desk)))
    as [Hr Hload].
  split; [now rewrite Hr|].
  exact (proj1 (Hload (or_introl eq_refl) eq_refl Hsize eq_refl)).
Defined.

(** ** Export and shortcuts *)

Section SaveFile.

Lemma length_join (sep : jsstring) (l : list jsstring) :
  length (join sep l)
  = (list_sum (map length l) + length sep * (length l - 1))%nat.
Proof.
  induction l as [|s l IH]; [cbn; lia|].
  destruct l as [|t l].
  - cbn. lia.
  - change (join sep (s :: t :: l)) with (s ++ sep ++ join sep (t :: l)).
    rewrite !length_app, IH. cbn [map list_sum length].
    rewrite !Nat.sub_succ, !Nat.sub_0_r, (Nat.mul_succ_r (length sep)).
    unfold list_sum. cbn [fold_right]. lia.
Qed.

Lemma startsWith_app (p s : jsstring) : startsWith p (p ++ s) = true.
Proof.
  induction p as [|c p IH]; [now destruct s|].
  cbn [app startsWith]. now rewrite N.eqb_refl, IH.
Qed.

Lemma endsWith_app (p s : jsstring) : endsWith p (s ++ p) = true.
Proof. unfold endsWith. rewrite rev_app_distr. apply startsWith_app. Qed.

Lemma includes_app (p s t : jsstring) : includes p (s ++ p ++ t) = true.
Proof.
  induction s as [|c s IH].
  - cbn [app]. destruct (p ++ t) eqn:E; cbn [includes];
      rewrite <- E, startsWith_app; reflexivity.
  - cbn [app includes]. rewrite IH. apply orb_true_r.
Qed.

End SaveFile.

(** X19.  [save] hands the browser one file: the texts of the regions in
    document order with a blank line between neighbours (so no separator for
    one region, and the empty text for a page without regions), as
    text/plain.  It shows "Document saved successfully" and leaves markup,
    page, log, nodes and mode as they were. *)
Theorem save_exports_the_regions_and_changes_nothing
    (text_of : jsstring -> jsstring) (iso : jsstring) (d : Desk) :
  exists file,
    downloads (save text_of iso d) = downloads d ++ [file] /\
    downloadText file = join blank_line (map text_of (contents (world d))) /\
    length (downloadText file)
    = (list_sum (map (fun s => length (text_of s)) (contents (world d)))
       + 2 * (length (contents (world d)) - 1))%nat /\
    (contents (world d) = [] -> downloadText file = []) /\
    downloadType file = lit "text/plain" /\
    statusText (world (save text_of iso d))
    = lit "Document saved successfully" /\
    container (world (save text_of iso d)) = container (world d) /\
    history (world (save text_of iso d)) = history (world d) /\
    historyIndex (world (save text_of iso d)) = historyIndex (world d) /\
    nodes (world (save text_of iso d)) = nodes (world d) /\
    rendering (world (save text_of iso d)) = rendering (world d) /\
    mathjax (save text_of iso d) = mathjax d.
Proof.
  eexists. split; [reflexivity|]. cbn [downloadText downloadType].
  assert (Hmap : map (fun e => text_of (innerHTML e))
                   (regions (container (world d)))
                 = map text_of (contents (world d))).
  { unfold contents. now rewrite map_map. }
  rewrite Hmap. split; [reflexivity|]. split; [|split].
  - rewrite length_join, map_map, length_map. reflexivity.
  - now intros ->.
  - cbn. tauto.
Qed.

Lemma save_exports_witness :
  exists file,
    downloads (save (fun s => s) (lit "2024-05-06T07:08:09.000Z")
                 (with_world
                    (loadFile two_sections (text_file (lit "a")) initial)
                    new_desk))
    = [file] /\
    downloadText file = lit "a" ++ blank_line ++ lit "a".
Proof.
  destruct (save_exports_the_regions_and_changes_nothing
              (fun s => s) (lit "2024-05-06T07:08:09.000Z")
              (with_world
                 (loadFile two_sections (text_file (lit "a")) initial)
                 new_desk))
    as (file & Hd & Ht & _).
  exists file. split; [exact Hd|]. rewrite Ht. reflexivity.
Defined.

(** X20.  The file [save] produces passes the type test of [loadFile]: its
    name ends in ".tex" whatever the date string is, and the type of its
    blob contains "text/".  So a [File] with that name is accepted whatever
    type the system reports for it, and one with that type whatever it is
    called. *)
Theorem saved_file_is_accepted_by_loadFile {B : Browser}
    (text_of : jsstring -> jsstring) (iso : jsstring) (d : Desk) :
  exists file,
    last (downloads (save text_of iso d)) = Some file /\
    downloadName file = lit "latex-document-" ++ take 10 iso ++ lit ".tex" /\
    (forall type text, accepted (MkFile type (downloadName file) text)) /\
    (forall name text, accepted (MkFile (downloadType file) name text)) /\
    (forall parseLatex type text w,
       statusText (loadFile parseLatex (MkFile type (downloadName file) text) w)
       <> lit "Please upload a valid LaTeX (.tex) file").
Proof.
  eexists. split; [apply last_snoc|]. cbn [downloadName downloadType].
  split; [reflexivity|].
  assert (Hname : endsWith (lit ".tex")
                    (lit "latex-document-" ++ take 10 iso ++ lit ".tex") = true).
  { rewrite app_assoc. apply endsWith_app. }
  split; [|split].
  - intros type text. right. exact Hname.
  - intros name text. left. reflexivity.
  - intros parseLatex type text w. unfold loadFile.
    cbn [fileType fileName fileText]. rewrite Hname, andb_false_r.
    unfold try_load. cbn [fileText]. destruct text as [t|].
    + destruct (1000000 <? N.of_nat (length t))%N; [cbn; discriminate|].
      unfold parse_and_show. destruct (parsed_nodes parseLatex t) as [ns|];
        cbn; discriminate.
    + cbn. discriminate.
Qed.

Lemma saved_file_witness :
  exists file,
    last (downloads (save (fun s => s) (lit "2024-05-06T07:08:09.000Z")
                       new_desk)) = Some file /\
    downloadName file = lit "latex-document-2024-05-06.tex".
Proof.
  destruct (saved_file_is_accepted_by_loadFile
              (fun s => s) (lit "2024-05-06T07:08:09.000Z") new_desk)
    as (file & Hl & Hn & _).
  exists file. split; [exact Hl|]. rewrite Hn. reflexivity.
Defined.



(** ** Edits seen from the event loop *)

Section Bursts.

Lemma pending_after_input (i : nat) (html : jsstring) (w : World) :
  timers_ok w -> (i < length (contents w))%nat ->
  pending_pushes (input i html w)
  = [MkTimer (nextTimer w) (clock w + 500) PushHistory].
Proof.
  intros Hok Hi. destruct (input_effect i html w Hi) as (_ & _ & _ & Ht & _).
  unfold pending_pushes. rewrite Ht, List.filter_app.
  rewrite (filter_none is_push); [reflexivity|].
  intros t Hin. now destruct (cleared_timers w t Hok Hin).
Qed.

Lemma pause_before_the_timer (d : N) (w : World) (T : Timer) :
  timers_ok w -> pending_pushes w = [T] -> (clock w + d < due T)%N ->
  same_page (elapse d w) w /\ timers_ok (elapse d w) /\
  clock (elapse d w) = (clock w + d)%N.
Proof.
  intros Hok HP Hd. pose proof Hok as (_ & Hnd & _).
  destruct (elapse_effect d w Hnd) as (_ & _ & _ & Hk & Hs).
  split; [|split; [now apply timers_ok_elapse | exact Hk]].
  apply (same_page_trans _ _ _ Hs), fire_quiet. intros t Hin Hp.
  assert (Ht : In t (pending_pushes w)) by (apply List.filter_In; tauto).
  rewrite HP in Ht. now destruct Ht as [<-|[]].
Qed.

Lemma burst_keeps_one_timer (steps : list (N * nat * jsstring)) :
  forall (w : World) (T : Timer),
    timers_ok w -> pending_pushes w = [T] -> due T = (clock w + 500)%N ->
    Forall (fun s => (fst (fst s) < 500)%N /\
                     (snd (fst s) < length (contents w))%nat) steps ->
    timers_ok (burst steps w) /\
    (exists T', pending_pushes (burst steps w) = [T'] /\
                due T' = (clock (burst steps w) + 500)%N) /\
    history (burst steps w) = history w /\
    historyIndex (burst steps w) = historyIndex w /\
    container (burst steps w) = typed steps (container w).
Proof.
  induction steps as [|[[d i] html] rest IH]; intros w T Hok HP Hdue Hall.
  - cbn [burst typed]. split; [exact Hok|]. split; [now exists T | tauto].
  - apply Forall_cons in Hall as [[Hd Hi] Hall]. cbn [fst snd] in Hd, Hi.
    destruct (pause_before_the_timer d w T Hok HP ltac:(lia))
      as ((Hh & Hx & Hc) & Hok' & Hk).
    assert (Hlen : length (contents (elapse d w)) = length (contents w))
      by (unfold contents; now rewrite Hc).
    assert (Hi' : (i < length (contents (elapse d w)))%nat) by lia.
    destruct (input_effect i html (elapse d w) Hi')
      as (Hc2 & Hh2 & Hx2 & _ & _ & _ & Hk2).
    pose proof (pending_after_input i html (elapse d w) Hok' Hi') as HP2.
    pose proof (timers_ok_input i html (elapse d w) Hok' Hi') as Hok2.
    assert (Hlen2 : length (contents (input i html (elapse d w)))
                    = length (contents w)).
    { unfold contents. rewrite Hc2.
      pose proof (length_contents_type_in i html (elapse d w)) as Hl.
      unfold contents in Hl. cbn [container set_container] in Hl.
      rewrite Hl. exact Hlen. }
    cbn [burst typed].
    destruct (IH (input i html (elapse d w)) _ Hok2 HP2)
      as (Hokn & HTn & Hhn & Hxn & Hcn).
    + cbn [due]. now rewrite Hk2.
    + eapply Forall_impl; [exact Hall|]. intros s [? ?]. now rewrite Hlen2.
    + split; [exact Hokn|]. split; [exact HTn|].
      rewrite Hhn, Hxn, Hcn, Hh2, Hx2, Hc2, Hh, Hx, Hc. tauto.
Qed.

End Bursts.



(** X23.  However many [input] events follow one another with pauses
    shorter than 500 ms, in whatever regions, nothing is pushed while the
    run lasts and one [pushHistory] timer is pending after each event, due
    500 ms after it; 500 ms after the last event [pushHistory] has run
    once, on the page that carries all the edits. *)
Theorem a_run_of_edits_is_pushed_once {B : Browser}
    (es : list event) (w : World) (i : nat) (html : jsstring)
    (steps : list (N * nat * jsstring)) :
  session es initial = Returned w ->
  (i < length (contents w))%nat ->
  Forall (fun s => (fst (fst s) < 500)%N /\
                   (snd (fst s) < length (contents w))%nat) steps ->
  history (burst steps (input i html w)) = history w /\
  historyIndex (burst steps (input i html w)) = historyIndex w /\
  (exists T,
     pending_pushes (burst steps (input i html w)) = [T] /\
     due T = (clock (burst steps (input i html w)) + 500)%N) /\
  container (elapse 500 (burst steps (input i html w)))
  = typed steps (type_in i html (container w)) /\
  history (elapse 500 (burst steps (input i html w)))
  = history (pushHistory
               (set_container (typed steps (type_in i html (container w))) w)) /\
  historyIndex (elapse 500 (burst steps (input i html w)))
  = historyIndex
      (pushHistory
         (set_container (typed steps (type_in i html (container w))) w)).
Proof.
  intros Hs Hi Hall.
  destruct (sound_session es initial sound_initial)
    as (w' & Hs' & _ & Hok & _).
  rewrite Hs in Hs'. injection Hs' as <-.
  destruct (input_effect i html w Hi) as (Hc1 & Hh1 & Hx1 & _ & _ & _ & Hk1).
  pose proof (pending_after_input i html w Hok Hi) as HP.
  pose proof (timers_ok_input i html w Hok Hi) as Hok1.
  assert (Hlen1 : length (contents (input i html w)) = length (contents w)).
  { unfold contents. rewrite Hc1.
    pose proof (length_contents_type_in i html w) as Hl.
    unfold contents in Hl. cbn [container set_container] in Hl. exact Hl. }
  destruct (burst_keeps_one_timer steps (input i html w) _ Hok1 HP)
    as (Hokn & (T & HPn & Hdue) & Hhn & Hxn & Hcn).
  { cbn [due]. now rewrite Hk1. }
  { eapply Forall_impl; [exact Hall|]. intros s [? ?]. now rewrite Hlen1. }
  set (wn := burst steps (input i html w)) in *.
  split; [now rewrite Hhn|]. split; [now rewrite Hxn|].
  split; [now exists T|].
  pose proof Hokn as (_ & Hnd & _).
  destruct (elapse_effect 500 wn Hnd) as (_ & _ & _ & _ & Hse).
  assert (HT : In T (timers wn) /\ is_push T = true).
  { apply List.filter_In. fold (pending_pushes wn). rewrite HPn. now left. }
  destruct HT as [HT HpT].
  assert (Hpush : same_page (elapse 500 wn) (pushHistory wn)).
  { apply (same_page_trans _ _ _ Hse).
    apply (fire_pushes _ _ T); try assumption; [lia | lia |].
    intros u Hu Hpu. now apply (one_pending_push wn). }
  assert (Hpage : same_page wn
            (set_container (typed steps (type_in i html (container w))) w)).
  { unfold same_page. rewrite Hhn, Hxn, Hcn, Hh1, Hx1, Hc1. cbn. tauto. }
  pose proof (pushHistory_same_page _ _ Hpage) as Hpp.
  destruct (same_page_trans _ _ _ Hpush Hpp) as (Hh & Hx & Hc).
  destruct (pushHistory_keeps_timers
              (set_container (typed steps (type_in i html (container w))) w))
    as (_ & _ & _ & Hcp & _).
  rewrite Hh, Hx, Hc, Hcp. cbn [container set_container]. tauto.
Qed.

Lemma a_run_of_edits_witness :
  history (elapse 500
             (burst [(100%N, 1%nat, lit "y"); (499%N, 0%nat, lit "xx")]
                (input 0 (lit "x")
                   (loadFile two_sections (text_file (lit "a")) initial))))
  = [[lit "a"; lit "a"]; [lit "xx"; lit "y"]].
Proof.
  destruct (a_run_of_edits_is_pushed_once (B := sample_browser)
              [Load two_sections (text_file (lit "a"))]
              (loadFile two_sections (text_file (lit "a")) initial)
              0 (lit "x")
              [(100%N, 1%nat, lit "y"); (499%N, 0%nat, lit "xx")]
              eq_refl)
    as (_ & _ & _ & _ & Hh & _).
  - vm_compute. lia.
  - repeat constructor; vm_compute; lia.
  - rewrite Hh. vm_compute. reflexivity.
Defined.
